(** * Particle collision simulator ([symulator zderzen], second half of
    [src/kalendarz.py]): a shallow embedding and its properties.

    Python floats are modelled as real numbers [R]: the statements of the
    first part are about exact real arithmetic.  What depends on rounding is
    settled in [Binary64] at the end, on the floats of the machine.  Python
    raises [ZeroDivisionError] when a float is divided by zero; the embedding
    makes that explicit with a result type, so that a call either returns the
    mutated objects or fails. *)

From Stdlib Require Import Reals Lra Lia ZArith List Bool Sorted.
From Stdlib Require String PrimFloat FloatOps SpecFloat QArith.
Import ListNotations.

Open Scope R_scope.

(** ** Exceptions *)

Inductive exn : Type :=
| ZeroDivisionError
| IndexError
| OverflowError.

Inductive result (A : Type) : Type :=
| Ok (a : A)
| Raise (e : exn).

Arguments Ok {A} a.
Arguments Raise {A} e.

Definition bind {A B : Type} (m : result A) (k : A -> result B) : result B :=
  match m with
  | Ok a => k a
  | Raise e => Raise e
  end.

Declare Scope result_scope.
Delimit Scope result_scope with result.
Notation "x <- m ;; k" := (bind m (fun x => k))
  (at level 100, m at next level, right associativity) : result_scope.
Open Scope result_scope.

(** Python's [a / b] on floats. *)
Definition fdiv (a b : R) : result R :=
  if Req_dec_T b 0 then Raise ZeroDivisionError else Ok (a / b).

(** Comparisons of floats, as booleans. *)
Definition flt (a b : R) : bool := if Rlt_dec a b then true else false.
Definition fgt (a b : R) : bool := if Rgt_dec a b then true else false.
Definition fge (a b : R) : bool := if Rge_dec a b then true else false.

(** ** Constants *)

Definition WIDTH : R := 800.
Definition HEIGHT : R := 600.
Definition PARTICLE_RADIUS : R := 5.
Definition DT : R := 1.
Definition CELL_SIZE : R := 4 * PARTICLE_RADIUS.
(** [(WIDTH + CELL_SIZE - 1) // CELL_SIZE] and the same for [HEIGHT], on
    Python integers. *)
Definition GRID_W : Z := ((800 + 4 * 5 - 1) / (4 * 5))%Z.
Definition GRID_H : Z := ((600 + 4 * 5 - 1) / (4 * 5))%Z.

(** ** Particles *)

Record Particle : Type := mkParticle {
  x : R;
  y : R;
  vx : R;
  vy : R
}.

Definition update_position (self : Particle) : Particle :=
  mkParticle (x self + vx self * DT) (y self + vy self * DT) (vx self) (vy self).

Definition check_walls (self : Particle) : Particle :=
  let self :=
    if flt (x self - PARTICLE_RADIUS) 0 || fgt (x self + PARTICLE_RADIUS) WIDTH
    then mkParticle (Rmax PARTICLE_RADIUS (Rmin (x self) (WIDTH - PARTICLE_RADIUS)))
                    (y self) (- vx self) (vy self)
    else self in
  if flt (y self - PARTICLE_RADIUS) 0 || fgt (y self + PARTICLE_RADIUS) HEIGHT
  then mkParticle (x self)
                  (Rmax PARTICLE_RADIUS (Rmin (y self) (HEIGHT - PARTICLE_RADIUS)))
                  (vx self) (- vy self)
  else self.

(** [collide_with] mutates [self] and [other]; the embedding returns both
    objects as they are when the call returns, or the exception raised. *)
Definition collide_with (self other : Particle) : result (Particle * Particle) :=
  let dx := x other - x self in
  let dy := y other - y self in
  let dist2 := dx * dx + dy * dy in
  if fge dist2 (4 * PARTICLE_RADIUS * PARTICLE_RADIUS) then Ok (self, other)
  else
    let dist := sqrt dist2 in
    nx <- fdiv dx dist ;;
    ny <- fdiv dy dist ;;
    let dvx := vx self - vx other in
    let dvy := vy self - vy other in
    let dvn := dvx * nx + dvy * ny in
    if fgt dvn 0 then Ok (self, other)
    else
      let impulse := dvn in
      let self := mkParticle (x self) (y self)
                    (vx self - impulse * nx) (vy self - impulse * ny) in
      let other := mkParticle (x other) (y other)
                    (vx other + impulse * nx) (vy other + impulse * ny) in
      let overlap := 2 * PARTICLE_RADIUS - dist in
      if fgt overlap 0 then
        let sep := overlap / 2 in
        Ok (mkParticle (x self - sep * nx) (y self - sep * ny) (vx self) (vy self),
            mkParticle (x other + sep * nx) (y other + sep * ny) (vx other) (vy other))
      else Ok (self, other).

(** ** The simulation loop *)

(** A [for] loop whose body may raise. *)
Fixpoint for_each {A St : Type} (l : list A) (body : A -> St -> result St) (s : St)
  : result St :=
  match l with
  | [] => Ok s
  | a :: l' => s' <- body a s ;; for_each l' body s'
  end.

(** [range(lo, hi)] and [range(n)] on Python integers. *)
Definition range2 (lo hi : Z) : list Z :=
  map (fun k => (lo + Z.of_nat k)%Z) (seq 0 (Z.to_nat (hi - lo))).
Definition range (n : Z) : list Z := range2 0 n.

(** [l[i] = f(l[i])] on a list; the index is in range wherever it is used. *)
Fixpoint update_nth {A : Type} (i : nat) (f : A -> A) (l : list A) : list A :=
  match l, i with
  | [], _ => []
  | a :: l', O => f a :: l'
  | a :: l', S i' => a :: update_nth i' f l'
  end.

(** The spatial grid: [grid[gx][gy]] is the list of the indexes of the
    particles of that cell. *)
Definition Grid : Type := list (list (list nat)).

Definition new_grid : Grid :=
  map (fun _ => map (fun _ => []) (range GRID_H)) (range GRID_W).

Definition grid_get (grid : Grid) (gx gy : Z) : list nat :=
  nth (Z.to_nat gy) (nth (Z.to_nat gx) grid []) [].

Definition clear_grid (grid : Grid) : Grid :=
  map (fun col => map (fun _ => []) col) grid.

Definition grid_append (grid : Grid) (gx gy : Z) (i : nat) : Grid :=
  update_nth (Z.to_nat gx) (update_nth (Z.to_nat gy) (fun cell => cell ++ [i])) grid.

(** [int(p.x // CELL_SIZE)] and [int(p.y // CELL_SIZE)], clamped to the grid. *)
Definition cell_of (p : Particle) : Z * Z :=
  let gx := Int_part (x p / CELL_SIZE) in
  let gy := Int_part (y p / CELL_SIZE) in
  (Z.max 0 (Z.min gx (GRID_W - 1)), Z.max 0 (Z.min gy (GRID_H - 1))).

(** Step 3 of the loop, on the cells of the particles in index order. *)
Fixpoint fill_from (i : nat) (cells : list (Z * Z)) (grid : Grid) : Grid :=
  match cells with
  | [] => grid
  | (gx, gy) :: cells' => fill_from (S i) cells' (grid_append grid gx gy i)
  end.

Definition fill_grid (cells : list (Z * Z)) (grid : Grid) : Grid :=
  fill_from 0 cells grid.

Definition half_stencil : list (Z * Z) :=
  [(1, 0); (1, -1); (0, -1); (-1, -1)]%Z.

Definition in_grid (nx ny : Z) : bool :=
  ((0 <=? nx) && (nx <? GRID_W) && (0 <=? ny) && (ny <? GRID_H))%Z.

Section Visit.
(** Step 4 of the loop.  The grid is not touched while it runs, so the
    loops are written once for any action [visit i j] taken at the place
    of [particles[i].collide_with(particles[j])]. *)
Context {St : Type} (visit : nat -> nat -> St -> result St).

Definition visit_cell (cell : list nat) : St -> result St :=
  for_each (seq 0 (length cell)) (fun i =>
    for_each (seq (i + 1) (length cell - (i + 1))) (fun j =>
      visit (nth i cell O) (nth j cell O))).

Definition visit_neighbors (grid : Grid) (gx gy : Z) (cell : list nat)
  : St -> result St :=
  for_each half_stencil (fun d s =>
    let nx := (gx + fst d)%Z in
    let ny := (gy + snd d)%Z in
    if in_grid nx ny then
      let neighbor := grid_get grid nx ny in
      for_each cell (fun i =>
        for_each neighbor (fun j s =>
          if (i <? j)%nat then visit i j s else Ok s)) s
    else Ok s).

Definition check_collisions (grid : Grid) : St -> result St :=
  for_each (range GRID_W) (fun gx =>
    for_each (range GRID_H) (fun gy s =>
      let cell := grid_get grid gx gy in
      s <- visit_cell cell s ;;
      visit_neighbors grid gx gy cell s)).
End Visit.

Fixpoint set_nth {A : Type} (i : nat) (a : A) (l : list A) : list A :=
  match l, i with
  | [], _ => []
  | _ :: l', O => a :: l'
  | b :: l', S i' => b :: set_nth i' a l'
  end.

(** [particles[i].collide_with(particles[j])]: the two objects are mutated
    in place, so the list holds the new ones afterwards. *)
Definition collide_at (i j : nat) (particles : list Particle)
  : result (list Particle) :=
  match nth_error particles i, nth_error particles j with
  | Some p1, Some p2 =>
      r <- collide_with p1 p2 ;;
      Ok (set_nth j (snd r) (set_nth i (fst r) particles))
  | _, _ => Raise IndexError
  end.

(** [sum(0.5 * (p.vx ** 2 + p.vy ** 2) for p in particles)] *)
Definition kinetic_energy (particles : list Particle) : R :=
  fold_left (fun acc p => acc + 0.5 * (vx p ^ 2 + vy p ^ 2)) particles 0.

(** What a frame prints. *)
Inductive output : Type :=
| EnergyWarning (diff : R).

(** The literal [1e-3] as Python reads it: the double nearest to 1/1000,
    which is [1152921504606847 / 2^60]. *)
Definition ENERGY_TOLERANCE : R := 1152921504606847 / 1152921504606846976.

Definition energy_check (current_energy total_energy : R) : list output :=
  let diff := Rabs (current_energy - total_energy) in
  if fgt diff ENERGY_TOLERANCE then [EnergyWarning diff] else [].

(** The variables of [simulate] that live across frames. *)
Record State : Type := mkState {
  particles : list Particle;
  grid : Grid;
  total_energy : R
}.

(** The state before the first frame, from the particles drawn at random. *)
Definition init (ps : list Particle) : State :=
  mkState ps new_grid (kinetic_energy ps).

(** Steps 1 to 4 of a frame: motion, walls, grid, collisions. *)
Definition move (ps : list Particle) : list Particle :=
  map (fun p => check_walls (update_position p)) ps.

Definition physics (st : State) : result (list Particle * Grid) :=
  let ps := move (particles st) in
  let g := fill_grid (map cell_of ps) (clear_grid (grid st)) in
  ps' <- check_collisions collide_at g ps ;;
  Ok (ps', g).

(** One pass of the [while running] loop, drawing left out. *)
Definition frame (st : State) : result (State * list output) :=
  r <- physics st ;;
  let current_energy := kinetic_energy (fst r) in
  Ok (mkState (fst r) (snd r) (total_energy st),
      energy_check current_energy (total_energy st)).

(** * Notions used in the statements *)

(** The local variables of [collide_with], as functions of the two bodies. *)
Definition dist2 (p q : Particle) : R :=
  (x q - x p) * (x q - x p) + (y q - y p) * (y q - y p).
Definition dist (p q : Particle) : R := sqrt (dist2 p q).
Definition normal_x (p q : Particle) : R := (x q - x p) / dist p q.
Definition normal_y (p q : Particle) : R := (y q - y p) / dist p q.
Definition dvn (p q : Particle) : R :=
  (vx p - vx q) * normal_x p q + (vy p - vy q) * normal_y p q.

(** Half the rate at which the squared distance of the centres grows when
    both bodies keep their velocities: positive when they move apart,
    negative when they close in. *)
Definition separation_rate (p q : Particle) : R :=
  (x q - x p) * (vx q - vx p) + (y q - y p) * (vy q - vy p).

(** The bodies after a time [t] of free motion. *)
Definition drift (t : R) (p : Particle) : Particle :=
  mkParticle (x p + vx p * t) (y p + vy p * t) (vx p) (vy p).

Definition momentum_x (p q : Particle) : R := vx p + vx q.
Definition momentum_y (p q : Particle) : R := vy p + vy q.
Definition pair_energy (p q : Particle) : R :=
  0.5 * (vx p ^ 2 + vy p ^ 2) + 0.5 * (vx q ^ 2 + vy q ^ 2).

(** The bodies as the impulse branch leaves them. *)
Definition bounced_self (p q : Particle) : Particle :=
  let sep := if fgt (2 * PARTICLE_RADIUS - dist p q) 0
             then (2 * PARTICLE_RADIUS - dist p q) / 2 else 0 in
  mkParticle (x p - sep * normal_x p q) (y p - sep * normal_y p q)
             (vx p - dvn p q * normal_x p q) (vy p - dvn p q * normal_y p q).
Definition bounced_other (p q : Particle) : Particle :=
  let sep := if fgt (2 * PARTICLE_RADIUS - dist p q) 0
             then (2 * PARTICLE_RADIUS - dist p q) / 2 else 0 in
  mkParticle (x q + sep * normal_x p q) (y q + sep * normal_y p q)
             (vx q + dvn p q * normal_x p q) (vy q + dvn p q * normal_y p q).

(** Two overlapping bodies on a horizontal line that move away from each
    other. *)
Definition apart_left : Particle := mkParticle 100 300 (-1) 0.
Definition apart_right : Particle := mkParticle 106 300 1 0.

(** C6, as the claim states it: the head-on pair exchanges its velocities and
    keeps its positions. *)
Definition head_on_exchange (s x0 y0 : R) : Prop :=
  collide_with (mkParticle x0 y0 s 0)
               (mkParticle (x0 + 2 * PARTICLE_RADIUS) y0 (- s) 0)
  = Ok (mkParticle x0 y0 (- s) 0,
        mkParticle (x0 + 2 * PARTICLE_RADIUS) y0 s 0).

(** The calls [particles[i].collide_with(particles[j])] of step 4, in the
    order in which the loops make them. *)
Definition cell_pairs (cell : list nat) : list (nat * nat) :=
  flat_map (fun i => map (fun j => (nth i cell O, nth j cell O))
                         (seq (i + 1) (length cell - (i + 1))))
           (seq 0 (length cell)).

Definition cross_pairs (cell neighbor : list nat) : list (nat * nat) :=
  flat_map (fun i =>
    flat_map (fun j => if (i <? j)%nat then [(i, j)] else []) neighbor) cell.

Definition neighbor_pairs (grid : Grid) (gx gy : Z) (cell : list nat)
  : list (nat * nat) :=
  flat_map (fun d =>
    let nx := (gx + fst d)%Z in
    let ny := (gy + snd d)%Z in
    if in_grid nx ny then cross_pairs cell (grid_get grid nx ny) else [])
    half_stencil.

Definition collision_pairs (grid : Grid) : list (nat * nat) :=
  flat_map (fun gx =>
    flat_map (fun gy =>
      let cell := grid_get grid gx gy in
      cell_pairs cell ++ neighbor_pairs grid gx gy cell) (range GRID_H))
    (range GRID_W).

(** The same cell, or one of its eight neighbours. *)
Definition near (c1 c2 : Z * Z) : bool :=
  ((Z.abs (fst c1 - fst c2) <=? 1) && (Z.abs (snd c1 - snd c2) <=? 1))%Z.

(** The enumeration of the specification: every pair [i < j] of bodies whose
    cells are the same or neighbours, each once.  [cells] gives the cell of
    each body, in index order. *)
Definition brute_force_pairs (cells : list (Z * Z)) : list (nat * nat) :=
  flat_map (fun i =>
    flat_map (fun j =>
      if near (nth i cells (0, 0)%Z) (nth j cells (0, 0)%Z) then [(i, j)] else [])
      (seq (i + 1) (length cells - (i + 1))))
    (seq 0 (length cells)).

(** The pairs that the loops test when the grid is filled from [cells]. *)
Definition tested_pairs (cells : list (Z * Z)) : list (nat * nat) :=
  collision_pairs (fill_grid cells (clear_grid new_grid)).

(** Body 0 in cell (1, 15) and body 1 in its left neighbour (0, 15). *)
Definition crossed_cells : list (Z * Z) := [(1, 15); (0, 15)]%Z.

(** Two overlapping bodies with the same velocity on the two sides of the
    border between the cells (0, 15) and (1, 15), in both index orders. *)
Definition crossed_pair : list Particle :=
  [mkParticle 25 300 1 0; mkParticle 17 300 1 0].
Definition uncrossed_pair : list Particle :=
  [mkParticle 17 300 1 0; mkParticle 25 300 1 0].

(** Two bodies near the left wall, on a horizontal line: the first leaves
    the domain during the frame and is put back on the wall, the second is
    four units to its right after the motion, with the same velocity. *)
Definition wall_pair : list Particle :=
  [mkParticle 6 300 (-2) 0; mkParticle 7 300 2 0].

Definition contained (p : Particle) : Prop :=
  PARTICLE_RADIUS <= x p <= WIDTH - PARTICLE_RADIUS /\
  PARTICLE_RADIUS <= y p <= HEIGHT - PARTICLE_RADIUS.

(** Two bodies that leave through the top left corner in the same frame:
    [check_walls] puts both centres on the point
    [(PARTICLE_RADIUS, PARTICLE_RADIUS)]. *)
Definition corner_pair : list Particle :=
  [mkParticle 6 6 (-2) (-2); mkParticle 7 6 (-3) (-2)].

(** Some frames in a row, with all that they print. *)
Fixpoint frames (n : nat) (st : State) : result (State * list output) :=
  match n with
  | O => Ok (st, [])
  | S n' =>
      r <- frame st ;;
      r' <- frames n' (fst r) ;;
      Ok (fst r', snd r ++ snd r')
  end.

(** [simulate], with what it draws at random and what it reads from the
    keyboard as arguments: [ps] are the particles of the start and [n] is the
    number of passes of the loop before the quit event. *)
Definition simulate (ps : list Particle) (n : nat)
  : result (State * list output) :=
  frames n (init ps).

(** One body in the middle of the domain, and a baseline that is not its
    energy. *)
Definition lone_state : State :=
  mkState [mkParticle 100 300 1 0] new_grid 0.

Definition well_shaped (g : Grid) : Prop :=
  length g = Z.to_nat GRID_W /\
  forall k, (k < length g)%nat -> length (nth k g []) = Z.to_nat GRID_H.

Definition cell_eqb (c1 c2 : Z * Z) : bool :=
  ((fst c1 =? fst c2) && (snd c1 =? snd c2))%Z.

(** The cell of body [k], and the bodies of a cell, in index order. *)
Definition cell_at (cells : list (Z * Z)) (k : nat) : Z * Z :=
  nth k cells (0, 0)%Z.

Definition members (cells : list (Z * Z)) (c : Z * Z) : list nat :=
  filter (fun k => cell_eqb (cell_at cells k) c) (seq 0 (length cells)).

Definition cells_in_grid (cells : list (Z * Z)) : Prop :=
  Forall (fun c => in_grid (fst c) (snd c) = true) cells.

(** The pairs of a list, each element with those after it. *)
Fixpoint ordered_pairs (l : list nat) : list (nat * nat) :=
  match l with
  | [] => []
  | a :: l' => map (pair a) l' ++ ordered_pairs l'
  end.

Definition shift (c d : Z * Z) : Z * Z := (fst c + fst d, snd c + snd d)%Z.

(** The pairs tested while the loops are at cell [c], from the bodies of
    the cells. *)
Definition cell_tests (cells : list (Z * Z)) (c : Z * Z) : list (nat * nat) :=
  ordered_pairs (members cells c)
  ++ flat_map (fun d =>
       if in_grid (fst (shift c d)) (snd (shift c d))
       then cross_pairs (members cells c) (members cells (shift c d))
       else []) half_stencil.

(** A call with the two bodies in the other order, as the caller sees it. *)
Definition swap_result (r : result (Particle * Particle))
  : result (Particle * Particle) :=
  match r with
  | Ok pq => Ok (snd pq, fst pq)
  | Raise e => Raise e
  end.

(** The velocity of body [b] along the line of the centres of [p] and [q],
    and across it. *)
Definition normal_speed (p q b : Particle) : R :=
  vx b * normal_x p q + vy b * normal_y p q.
Definition tangential_speed (p q b : Particle) : R :=
  vy b * normal_x p q - vx b * normal_y p q.

(** [int(r)] on a float: the integer towards zero. *)
Definition py_int (r : R) : Z :=
  if Rle_dec 0 r then Int_part r else (- Int_part (- r))%Z.

(** [math.hypot] *)
Definition hypot (a b : R) : R := sqrt (a * a + b * b).

(** The colour in which a frame draws a particle: red, green, blue. *)
Definition color_of (p : Particle) : Z * Z * Z :=
  let speed := hypot (vx p) (vy p) in
  let color_val := Z.min 255 (py_int (40 * speed)) in
  (color_val, 0, 255 - color_val)%Z.

(** * Properties *)

(** ** Walls *)

Ltac case_cmp :=
  unfold flt, fgt, fge in *;
  repeat (match goal with
          | |- context [Rlt_dec ?a ?b] => destruct (Rlt_dec a b)
          | |- context [Rgt_dec ?a ?b] => destruct (Rgt_dec a b)
          | |- context [Rge_dec ?a ?b] => destruct (Rge_dec a b)
          end;
          cbn [orb andb x y vx vy] in *).

Ltac unfold_consts :=
  unfold WIDTH, HEIGHT, CELL_SIZE, PARTICLE_RADIUS, DT in *.

Lemma clamp_bounds (lo hi v : R) :
  lo <= hi -> lo <= Rmax lo (Rmin v hi) <= hi.
Proof.
  intros Hle. split.
  - apply Rmax_l.
  - apply Rmax_lub; [exact Hle | apply Rmin_r].
Qed.

Lemma check_walls_x_bounds (p : Particle) :
  PARTICLE_RADIUS <= x (check_walls p) <= WIDTH - PARTICLE_RADIUS.
Proof.
  assert (Hc : forall v, PARTICLE_RADIUS
                         <= Rmax PARTICLE_RADIUS (Rmin v (WIDTH - PARTICLE_RADIUS))
                         <= WIDTH - PARTICLE_RADIUS)
    by (intros v; apply clamp_bounds; unfold_consts; lra).
  unfold check_walls. case_cmp; cbn [x y vx vy]; try apply Hc;
    unfold_consts; lra.
Qed.

Lemma check_walls_y_bounds (p : Particle) :
  PARTICLE_RADIUS <= y (check_walls p) <= HEIGHT - PARTICLE_RADIUS.
Proof.
  assert (Hc : forall v, PARTICLE_RADIUS
                         <= Rmax PARTICLE_RADIUS (Rmin v (HEIGHT - PARTICLE_RADIUS))
                         <= HEIGHT - PARTICLE_RADIUS)
    by (intros v; apply clamp_bounds; unfold_consts; lra).
  unfold check_walls. case_cmp; cbn [x y vx vy]; try apply Hc;
    unfold_consts; lra.
Qed.

Lemma check_walls_energy (p : Particle) :
  0.5 * (vx (check_walls p) ^ 2 + vy (check_walls p) ^ 2)
  = 0.5 * (vx p ^ 2 + vy p ^ 2).
Proof. unfold check_walls. case_cmp; ring. Qed.

(** C10: [check_walls] leaves each velocity component as it is or negates
    it, so the squared speed [vx^2 + vy^2] of the body is the same before
    and after the call, wherever the body is. *)
Theorem check_walls_preserves_speed (p : Particle) :
  (vx (check_walls p) = vx p \/ vx (check_walls p) = - vx p) /\
  (vy (check_walls p) = vy p \/ vy (check_walls p) = - vy p) /\
  vx (check_walls p) ^ 2 + vy (check_walls p) ^ 2 = vx p ^ 2 + vy p ^ 2 /\
  0.5 * (vx (check_walls p) ^ 2 + vy (check_walls p) ^ 2)
  = 0.5 * (vx p ^ 2 + vy p ^ 2).
Proof.
  unfold check_walls. case_cmp;
    (split; [auto | split; [auto | split; ring]]).
Qed.

(** C9: a body at [(PARTICLE_RADIUS - 1, y0)] with velocity [(-s, 0)],
    [s > 0] and [y0] between [PARTICLE_RADIUS] and [HEIGHT - PARTICLE_RADIUS],
    is at [(PARTICLE_RADIUS, y0)] with velocity [(s, 0)] after
    [update_position] followed by [check_walls]. *)
Theorem left_wall_bounce (s y0 : R) :
  0 < s ->
  PARTICLE_RADIUS <= y0 <= HEIGHT - PARTICLE_RADIUS ->
  check_walls (update_position (mkParticle (PARTICLE_RADIUS - 1) y0 (- s) 0))
  = mkParticle PARTICLE_RADIUS y0 s 0.
Proof.
  intros Hs Hy. unfold update_position, check_walls. cbn [x y vx vy].
  unfold_consts.
  replace (y0 + 0 * 1) with y0 by ring.
  case_cmp; cbn [x y vx vy]; try lra.
  f_equal; try ring.
  rewrite Rmin_left by lra. rewrite Rmax_left by lra. reflexivity.
Qed.

Lemma left_wall_bounce_witness :
  check_walls (update_position (mkParticle (PARTICLE_RADIUS - 1) 300 (- 2) 0))
  = mkParticle PARTICLE_RADIUS 300 2 0.
Proof.
  apply (left_wall_bounce 2 300); unfold HEIGHT, PARTICLE_RADIUS; lra.
Defined.

(** C3, as amended: after [update_position] and [check_walls] every body is
    inside the domain on both axes, whatever its position and velocity were
    before. *)
Theorem walls_contain (p : Particle) :
  PARTICLE_RADIUS <= x (check_walls (update_position p)) <= WIDTH - PARTICLE_RADIUS /\
  PARTICLE_RADIUS <= y (check_walls (update_position p)) <= HEIGHT - PARTICLE_RADIUS.
Proof.
  split; [apply check_walls_x_bounds | apply check_walls_y_bounds].
Qed.

(** ** One call of [collide_with] *)

Lemma half_eq : 0.5 = 1 / 2.
Proof. lra. Qed.

Lemma dist2_nonneg (p q : Particle) : 0 <= dist2 p q.
Proof.
  unfold dist2.
  pose proof (Rle_0_sqr (x q - x p)) as Hx.
  pose proof (Rle_0_sqr (y q - y p)) as Hy.
  unfold Rsqr in Hx, Hy. lra.
Qed.

Lemma dist_sqr (p q : Particle) : dist p q * dist p q = dist2 p q.
Proof. unfold dist. apply sqrt_sqrt, dist2_nonneg. Qed.

Lemma dist_pos (p q : Particle) : 0 < dist2 p q -> 0 < dist p q.
Proof. intros H. unfold dist. apply sqrt_lt_R0, H. Qed.

Lemma normal_unit (p q : Particle) :
  0 < dist2 p q ->
  normal_x p q * normal_x p q + normal_y p q * normal_y p q = 1.
Proof.
  intros H. pose proof (dist_pos p q H) as Hd. pose proof (dist_sqr p q) as Hs.
  unfold normal_x, normal_y.
  replace ((x q - x p) / dist p q * ((x q - x p) / dist p q)
           + (y q - y p) / dist p q * ((y q - y p) / dist p q))
    with (dist2 p q / (dist p q * dist p q))
    by (unfold dist2; field; repeat split; lra).
  rewrite Hs. field. lra.
Qed.

Lemma fdiv_ok (a b : R) : b <> 0 -> fdiv a b = Ok (a / b).
Proof. intros H. unfold fdiv. destruct (Req_dec_T b 0); [contradiction | reflexivity]. Qed.

Lemma fdiv_zero (a : R) : fdiv a 0 = Raise ZeroDivisionError.
Proof. unfold fdiv. destruct (Req_dec_T 0 0); [reflexivity | exfalso; auto]. Qed.

Lemma collide_with_far (p q : Particle) :
  4 * PARTICLE_RADIUS * PARTICLE_RADIUS <= dist2 p q ->
  collide_with p q = Ok (p, q).
Proof.
  intros H. unfold collide_with. fold (dist2 p q).
  unfold fge. destruct (Rge_dec _ _) as [_ | Hn]; [reflexivity | lra].
Qed.

Lemma collide_with_coincident (p q : Particle) :
  dist2 p q = 0 -> collide_with p q = Raise ZeroDivisionError.
Proof.
  intros H. unfold collide_with. fold (dist2 p q). rewrite H.
  unfold fge. destruct (Rge_dec _ _) as [Hge | _].
  - unfold PARTICLE_RADIUS in Hge. lra.
  - rewrite sqrt_0, fdiv_zero. reflexivity.
Qed.

Lemma collide_with_skip (p q : Particle) :
  0 < dist2 p q < 4 * PARTICLE_RADIUS * PARTICLE_RADIUS ->
  0 < dvn p q ->
  collide_with p q = Ok (p, q).
Proof.
  intros [H0 H1] Hv. pose proof (dist_pos p q H0) as Hd.
  unfold collide_with. fold (dist2 p q). fold (dist p q).
  unfold fge. destruct (Rge_dec _ _) as [Hge | _]; [lra |].
  rewrite !fdiv_ok by lra. cbn [bind].
  fold (normal_x p q). fold (normal_y p q). fold (dvn p q).
  unfold fgt. destruct (Rgt_dec (dvn p q) 0) as [_ | Hn]; [reflexivity | lra].
Qed.

Lemma collide_with_impulse (p q : Particle) :
  0 < dist2 p q < 4 * PARTICLE_RADIUS * PARTICLE_RADIUS ->
  dvn p q <= 0 ->
  collide_with p q = Ok (bounced_self p q, bounced_other p q).
Proof.
  intros [H0 H1] Hv. pose proof (dist_pos p q H0) as Hd.
  unfold collide_with. fold (dist2 p q). fold (dist p q).
  unfold fge. destruct (Rge_dec _ _) as [Hge | _]; [lra |].
  rewrite !fdiv_ok by lra. cbn [bind].
  fold (normal_x p q). fold (normal_y p q). fold (dvn p q).
  unfold fgt at 1. destruct (Rgt_dec (dvn p q) 0) as [Hp | _]; [lra |].
  unfold bounced_self, bounced_other. cbn [x y vx vy].
  destruct (fgt (2 * PARTICLE_RADIUS - dist p q) 0); cbn zeta.
  - reflexivity.
  - do 2 f_equal; f_equal; ring.
Qed.

Lemma dvn_dist (p q : Particle) :
  0 < dist2 p q -> dvn p q * dist p q = - separation_rate p q.
Proof.
  intros H. pose proof (dist_pos p q H) as Hd.
  unfold dvn, normal_x, normal_y, separation_rate. field. lra.
Qed.

(** The sign of [dvn] is the opposite of the sign of the rate at which the
    bodies separate: [dvn > 0] means that they close in. *)
Lemma dvn_nonpos_iff (p q : Particle) :
  0 < dist2 p q -> (dvn p q <= 0 <-> 0 <= separation_rate p q).
Proof.
  intros H. pose proof (dist_pos p q H) as Hd.
  pose proof (dvn_dist p q H) as He. split; intros Hs.
  - assert (dvn p q * dist p q <= 0) by
      (rewrite <- (Rmult_0_l (dist p q)); apply Rmult_le_compat_r; lra).
    lra.
  - destruct (Rle_dec (dvn p q) 0) as [Hle | Hgt]; [exact Hle |].
    assert (0 < dvn p q * dist p q) by (apply Rmult_lt_0_compat; lra).
    lra.
Qed.

Lemma drift_dist2 (t : R) (p q : Particle) :
  dist2 (drift t p) (drift t q)
  = dist2 p q + 2 * t * separation_rate p q
    + t * t * ((vx q - vx p) * (vx q - vx p) + (vy q - vy p) * (vy q - vy p)).
Proof. unfold dist2, drift, separation_rate. cbn [x y vx vy]. ring. Qed.

(** Bodies with a positive [separation_rate] are further apart after any
    time of free motion. *)
Lemma separating_bodies_move_apart (t : R) (p q : Particle) :
  0 < t -> 0 < separation_rate p q ->
  dist2 p q < dist2 (drift t p) (drift t q).
Proof.
  intros Ht Hs. rewrite drift_dist2.
  pose proof (Rle_0_sqr (vx q - vx p)) as Hx.
  pose proof (Rle_0_sqr (vy q - vy p)) as Hy. unfold Rsqr in Hx, Hy.
  assert (0 < t * separation_rate p q) by (apply Rmult_lt_0_compat; lra).
  assert (0 <= t * t * ((vx q - vx p) * (vx q - vx p)
                        + (vy q - vy p) * (vy q - vy p)))
    by (apply Rmult_le_pos; [apply Rmult_le_pos |]; lra).
  lra.
Qed.

Lemma bounced_momentum (p q : Particle) :
  momentum_x (bounced_self p q) (bounced_other p q) = momentum_x p q /\
  momentum_y (bounced_self p q) (bounced_other p q) = momentum_y p q.
Proof.
  unfold momentum_x, momentum_y, bounced_self, bounced_other. cbn [vx vy].
  split; ring.
Qed.

Lemma bounced_energy (p q : Particle) :
  0 < dist2 p q ->
  pair_energy (bounced_self p q) (bounced_other p q) = pair_energy p q.
Proof.
  intros H0. pose proof (normal_unit p q H0) as Hu.
  unfold pair_energy, bounced_self, bounced_other. cbn [x y vx vy].
  assert (Hd : dvn p q = (vx p - vx q) * normal_x p q
                         + (vy p - vy q) * normal_y p q) by reflexivity.
  set (n := dvn p q) in *. set (a := normal_x p q) in *.
  set (b := normal_y p q) in *. rewrite half_eq.
  replace (1 / 2 * ((vx p - n * a) ^ 2 + (vy p - n * b) ^ 2)
           + 1 / 2 * ((vx q + n * a) ^ 2 + (vy q + n * b) ^ 2))
    with (1 / 2 * (vx p ^ 2 + vy p ^ 2) + 1 / 2 * (vx q ^ 2 + vy q ^ 2)
          + n * (n * (a * a + b * b)
                 - ((vx p - vx q) * a + (vy p - vy q) * b)))
    by field.
  rewrite Hu, <- Hd. field.
Qed.

(** C4: when [collide_with] applies its impulse (the centres are apart and
    in range, and [dvn <= 0]), the call returns, and the sum of the two
    velocities and the sum of the two kinetic energies are what they were
    before, whatever the velocities. *)
Theorem impulse_conserves (p q : Particle) :
  0 < dist2 p q < 4 * PARTICLE_RADIUS * PARTICLE_RADIUS ->
  dvn p q <= 0 ->
  exists p' q',
    collide_with p q = Ok (p', q') /\
    momentum_x p' q' = momentum_x p q /\
    momentum_y p' q' = momentum_y p q /\
    pair_energy p' q' = pair_energy p q.
Proof.
  intros Hr Hv. exists (bounced_self p q), (bounced_other p q).
  split; [apply collide_with_impulse; assumption |].
  destruct (bounced_momentum p q) as [Hx Hy].
  split; [exact Hx | split; [exact Hy |]].
  apply bounced_energy, Hr.
Qed.


Lemma apart_dist2 : dist2 apart_left apart_right = 6 * 6.
Proof. unfold dist2, apart_left, apart_right. cbn [x y]. ring. Qed.

Lemma apart_dist : dist apart_left apart_right = 6.
Proof. unfold dist. rewrite apart_dist2. apply sqrt_square. lra. Qed.

Lemma apart_rate : separation_rate apart_left apart_right = 12.
Proof. unfold separation_rate, apart_left, apart_right. cbn [x y vx vy]. ring. Qed.

Lemma apart_in_range :
  0 < dist2 apart_left apart_right < 4 * PARTICLE_RADIUS * PARTICLE_RADIUS.
Proof. rewrite apart_dist2. unfold PARTICLE_RADIUS. lra. Qed.

Lemma apart_dvn : dvn apart_left apart_right <= 0.
Proof.
  apply dvn_nonpos_iff; [apply apart_in_range | rewrite apart_rate; lra].
Qed.

Lemma impulse_conserves_witness :
  exists p' q',
    collide_with apart_left apart_right = Ok (p', q') /\
    momentum_x p' q' = momentum_x apart_left apart_right /\
    momentum_y p' q' = momentum_y apart_left apart_right /\
    pair_energy p' q' = pair_energy apart_left apart_right.
Proof.
  apply (impulse_conserves apart_left apart_right);
    [apply apart_in_range | apply apart_dvn].
Defined.


(** C2: the code skips the impulse when [dvn > 0], and [dvn] is positive
    when the bodies close in.  Two overlapping bodies that move apart are
    given an impulse: the call turns their velocities round, towards each
    other. *)
Theorem separating_pair_gets_impulse :
  0 < separation_rate apart_left apart_right /\
  dist2 apart_left apart_right < (2 * PARTICLE_RADIUS) * (2 * PARTICLE_RADIUS) /\
  collide_with apart_left apart_right
  = Ok (mkParticle 98 300 1 0, mkParticle 108 300 (-1) 0).
Proof.
  split; [rewrite apart_rate; lra |].
  split; [rewrite apart_dist2; unfold PARTICLE_RADIUS; lra |].
  rewrite (collide_with_impulse _ _ apart_in_range apart_dvn).
  assert (Hx : normal_x apart_left apart_right = 1)
    by (unfold normal_x; rewrite apart_dist; cbn [x apart_left apart_right]; lra).
  assert (Hy : normal_y apart_left apart_right = 0)
    by (unfold normal_y; rewrite apart_dist; cbn [y apart_left apart_right]; lra).
  assert (Hv : dvn apart_left apart_right = -2)
    by (unfold dvn; rewrite Hx, Hy; cbn [vx vy apart_left apart_right]; lra).
  unfold bounced_self, bounced_other. rewrite Hx, Hy, Hv, apart_dist.
  unfold fgt, PARTICLE_RADIUS. destruct (Rgt_dec _ _) as [_ | Hn]; [| lra].
  cbn [x y vx vy apart_left apart_right].
  do 2 f_equal; f_equal; lra.
Qed.

(** What the code does skip: bodies in range that close in. *)
Lemma closing_pair_skipped (p q : Particle) :
  0 < dist2 p q < 4 * PARTICLE_RADIUS * PARTICLE_RADIUS ->
  separation_rate p q < 0 ->
  collide_with p q = Ok (p, q).
Proof.
  intros Hr Hs. apply collide_with_skip; [exact Hr |].
  destruct (Rle_dec (dvn p q) 0) as [Hle | Hgt]; [| lra].
  apply (dvn_nonpos_iff p q (proj1 Hr)) in Hle. lra.
Qed.

(** With the quantity [dvn] of the code, a value that is not negative leaves
    the velocities alone.  *)
Lemma dvn_nonneg_no_impulse (p q : Particle) :
  0 < dist2 p q < 4 * PARTICLE_RADIUS * PARTICLE_RADIUS ->
  0 <= dvn p q ->
  exists p' q',
    collide_with p q = Ok (p', q') /\
    vx p' = vx p /\ vy p' = vy p /\ vx q' = vx q /\ vy q' = vy q.
Proof.
  intros Hr Hv. destruct (Rle_dec (dvn p q) 0) as [Hle | Hgt].
  - assert (Hz : dvn p q = 0) by lra.
    exists (bounced_self p q), (bounced_other p q).
    split; [apply collide_with_impulse; assumption |].
    unfold bounced_self, bounced_other. cbn [vx vy]. rewrite Hz.
    repeat split; ring.
  - exists p, q. split; [apply collide_with_skip; [assumption | lra] |].
    repeat split; reflexivity.
Qed.

(** C5: when the two centres are at the same point the call raises
    [ZeroDivisionError]: the collision test accepts the pair and the normal
    is computed by a division by the distance, which is zero. *)
Theorem coincident_centres_raise (p : Particle) (vx' vy' : R) :
  collide_with p (mkParticle (x p) (y p) vx' vy') = Raise ZeroDivisionError.
Proof.
  apply collide_with_coincident. unfold dist2. cbn [x y]. ring.
Qed.

Lemma collide_with_tangent (p q : Particle) :
  x q = x p + 2 * PARTICLE_RADIUS -> y q = y p ->
  collide_with p q = Ok (p, q).
Proof.
  intros Hx Hy. apply collide_with_far. unfold dist2. rewrite Hx, Hy.
  unfold PARTICLE_RADIUS. right. ring.
Qed.

(** C6, as amended: two bodies on a horizontal line with their centres
    exactly two radii apart and velocities [(s, 0)] and [(-s, 0)], [s > 0],
    are out of the range of the collision test, which is strict: the call
    returns with both velocities and both positions as they were. *)
Theorem tangent_pair_untouched (s x0 y0 : R) :
  0 < s ->
  collide_with (mkParticle x0 y0 s 0)
               (mkParticle (x0 + 2 * PARTICLE_RADIUS) y0 (- s) 0)
  = Ok (mkParticle x0 y0 s 0,
        mkParticle (x0 + 2 * PARTICLE_RADIUS) y0 (- s) 0).
Proof.
  intros _. apply collide_with_tangent; reflexivity.
Qed.

Lemma tangent_pair_untouched_witness :
  collide_with (mkParticle 100 300 1 0)
               (mkParticle (100 + 2 * PARTICLE_RADIUS) 300 (- (1)) 0)
  = Ok (mkParticle 100 300 1 0,
        mkParticle (100 + 2 * PARTICLE_RADIUS) 300 (- (1)) 0).
Proof.
  apply (tangent_pair_untouched 1 100 300). lra.
Defined.

Lemma head_on_exchange_fails : ~ head_on_exchange 1 100 300.
Proof.
  unfold head_on_exchange. rewrite collide_with_tangent by reflexivity.
  intros H. injection H as H _. lra.
Qed.

(** ** The pairs that a frame tests *)

Section Loops.
Context {A B St : Type}.

Lemma for_each_ext (l : list A) (f g : A -> St -> result St) (s : St) :
  (forall a s', f a s' = g a s') -> for_each l f s = for_each l g s.
Proof.
  intros Hfg. revert s. induction l as [| a l IH]; intros s; cbn.
  - reflexivity.
  - rewrite Hfg. destruct (g a s); cbn; [apply IH | reflexivity].
Qed.

Lemma for_each_app (l1 l2 : list A) (f : A -> St -> result St) (s : St) :
  for_each (l1 ++ l2) f s = (s' <- for_each l1 f s ;; for_each l2 f s').
Proof.
  revert s. induction l1 as [| a l1 IH]; intros s; cbn.
  - reflexivity.
  - destruct (f a s); cbn; [apply IH | reflexivity].
Qed.

Lemma for_each_map (h : B -> A) (l : list B) (f : A -> St -> result St) (s : St) :
  for_each (map h l) f s = for_each l (fun b => f (h b)) s.
Proof.
  revert s. induction l as [| b l IH]; intros s; cbn.
  - reflexivity.
  - destruct (f (h b) s); cbn; [apply IH | reflexivity].
Qed.

Lemma for_each_flat_map (h : B -> list A) (l : list B)
      (f : A -> St -> result St) (s : St) :
  for_each (flat_map h l) f s = for_each l (fun b => for_each (h b) f) s.
Proof.
  revert s. induction l as [| b l IH]; intros s; cbn.
  - reflexivity.
  - rewrite for_each_app. destruct (for_each (h b) f s); cbn;
      [apply IH | reflexivity].
Qed.
End Loops.

Section Trace.
Context {St : Type} (visit : nat -> nat -> St -> result St).

Let call (ij : nat * nat) : St -> result St := visit (fst ij) (snd ij).

Lemma visit_cell_pairs (cell : list nat) (s : St) :
  visit_cell visit cell s = for_each (cell_pairs cell) call s.
Proof.
  unfold visit_cell, cell_pairs. rewrite for_each_flat_map.
  apply for_each_ext. intros i s'. rewrite for_each_map. reflexivity.
Qed.

Lemma visit_cross_pairs (cell neighbor : list nat) (s : St) :
  for_each cell (fun i =>
    for_each neighbor (fun j s' =>
      if (i <? j)%nat then visit i j s' else Ok s')) s
  = for_each (cross_pairs cell neighbor) call s.
Proof.
  unfold cross_pairs. rewrite for_each_flat_map.
  apply for_each_ext. intros i s'. rewrite for_each_flat_map.
  apply for_each_ext. intros j s''. destruct (i <? j)%nat; cbn.
  - unfold call. cbn. destruct (visit i j s''); reflexivity.
  - reflexivity.
Qed.

Lemma visit_neighbor_pairs (grid : Grid) (gx gy : Z) (cell : list nat) (s : St) :
  visit_neighbors visit grid gx gy cell s
  = for_each (neighbor_pairs grid gx gy cell) call s.
Proof.
  unfold visit_neighbors, neighbor_pairs. rewrite for_each_flat_map.
  apply for_each_ext. intros d s'. cbn zeta.
  destruct (in_grid _ _); [apply visit_cross_pairs | reflexivity].
Qed.

(** The loops of step 4 make exactly the calls of [collision_pairs], in
    that order, whatever the call does. *)
Lemma check_collisions_pairs (grid : Grid) (s : St) :
  check_collisions visit grid s = for_each (collision_pairs grid) call s.
Proof.
  unfold check_collisions, collision_pairs. rewrite for_each_flat_map.
  apply for_each_ext. intros gx s'. rewrite for_each_flat_map.
  apply for_each_ext. intros gy s''. cbn zeta.
  rewrite for_each_app, visit_cell_pairs.
  destruct (for_each (cell_pairs _) call s''); cbn;
    [apply visit_neighbor_pairs | reflexivity].
Qed.
End Trace.

(** The loops run with an action that only records the pair it is given. *)
Lemma check_collisions_trace (grid : Grid) :
  check_collisions (fun i j tr => Ok (tr ++ [(i, j)])) grid []
  = Ok (collision_pairs grid).
Proof.
  rewrite check_collisions_pairs.
  assert (H : forall l tr,
             for_each l (fun (ij : nat * nat) tr' =>
                           Ok (tr' ++ [(fst ij, snd ij)])) tr
             = Ok (tr ++ l)).
  { induction l as [| [i j] l IH]; intros tr; cbn.
    - rewrite app_nil_r. reflexivity.
    - rewrite IH, <- app_assoc. reflexivity. }
  apply (H (collision_pairs grid) []).
Qed.

(** ** The half stencil against all pairs *)

(** C1: the test [i < j] in the loop over a neighbour cell drops a pair
    whose body of lower index is in the neighbour, and the half stencil never
    looks from the neighbour back at the cell.  With body 0 in cell (1, 15)
    and body 1 in cell (0, 15) the brute-force enumeration has the pair
    (0, 1) and the loops make no call at all. *)
Theorem half_stencil_misses_pair :
  brute_force_pairs crossed_cells = [(0, 1)%nat] /\
  tested_pairs crossed_cells = [] /\
  forall (St : Type) (visit : nat -> nat -> St -> result St) (s : St),
    check_collisions visit (fill_grid crossed_cells (clear_grid new_grid)) s = Ok s.
Proof.
  assert (Ht : tested_pairs crossed_cells = []) by (vm_compute; reflexivity).
  split; [vm_compute; reflexivity |].
  split; [exact Ht |].
  intros St visit s. rewrite check_collisions_pairs.
  unfold tested_pairs in Ht. rewrite Ht. reflexivity.
Qed.

(** With the indexes the other way round the pair is tested. *)
Example half_stencil_sees_pair :
  tested_pairs [(0, 15); (1, 15)]%Z = [(0, 1)%nat].
Proof. vm_compute. reflexivity. Qed.

(** ** Whole frames *)

Lemma check_walls_inside (p : Particle) :
  PARTICLE_RADIUS <= x p <= WIDTH - PARTICLE_RADIUS ->
  PARTICLE_RADIUS <= y p <= HEIGHT - PARTICLE_RADIUS ->
  check_walls p = p.
Proof.
  intros Hx Hy. unfold check_walls. unfold_consts.
  case_cmp; try lra. reflexivity.
Qed.

Lemma check_walls_left (p : Particle) :
  x p < PARTICLE_RADIUS ->
  PARTICLE_RADIUS <= y p <= HEIGHT - PARTICLE_RADIUS ->
  check_walls p = mkParticle PARTICLE_RADIUS (y p) (- vx p) (vy p).
Proof.
  intros Hx Hy. unfold check_walls. unfold_consts.
  case_cmp; try lra.
  rewrite Rmin_left by lra. rewrite Rmax_left by lra. reflexivity.
Qed.

Lemma check_walls_corner (p : Particle) :
  x p < PARTICLE_RADIUS -> y p < PARTICLE_RADIUS ->
  check_walls p = mkParticle PARTICLE_RADIUS PARTICLE_RADIUS (- vx p) (- vy p).
Proof.
  intros Hx Hy. unfold check_walls. unfold_consts.
  case_cmp; try lra.
  rewrite !Rmin_left by lra. rewrite !Rmax_left by lra. reflexivity.
Qed.

Lemma cell_of_eq (p : Particle) (gx gy : Z) :
  (0 <= gx < GRID_W)%Z -> (0 <= gy < GRID_H)%Z ->
  IZR gx * CELL_SIZE <= x p < (IZR gx + 1) * CELL_SIZE ->
  IZR gy * CELL_SIZE <= y p < (IZR gy + 1) * CELL_SIZE ->
  cell_of p = (gx, gy).
Proof.
  intros Hgx Hgy Hx Hy. unfold cell_of. unfold_consts.
  rewrite <- (Int_part_spec (x p / (4 * 5)) gx) by lra.
  rewrite <- (Int_part_spec (y p / (4 * 5)) gy) by lra.
  f_equal; lia.
Qed.

(** Two bodies on a horizontal line, the second to the right of the first. *)
Section Horizontal.
Variables (p q : Particle) (d : R).
Hypothesis Hd : 0 < d.
Hypothesis Hx : x q = x p + d.
Hypothesis Hy : y q = y p.

Lemma horizontal_dist2 : dist2 p q = d * d.
Proof. unfold dist2. rewrite Hx, Hy. ring. Qed.

Lemma horizontal_dist : dist p q = d.
Proof. unfold dist. rewrite horizontal_dist2. apply sqrt_square. lra. Qed.

Lemma horizontal_normal_x : normal_x p q = 1.
Proof. unfold normal_x. rewrite horizontal_dist, Hx. field. lra. Qed.

Lemma horizontal_normal_y : normal_y p q = 0.
Proof. unfold normal_y. rewrite horizontal_dist, Hy. field. lra. Qed.

Lemma horizontal_dvn : dvn p q = vx p - vx q.
Proof. unfold dvn. rewrite horizontal_normal_x, horizontal_normal_y. ring. Qed.

Lemma horizontal_bounce :
  d < 2 * PARTICLE_RADIUS -> vx p <= vx q ->
  collide_with p q
  = Ok (mkParticle (x p - (2 * PARTICLE_RADIUS - d) / 2) (y p) (vx q) (vy p),
        mkParticle (x q + (2 * PARTICLE_RADIUS - d) / 2) (y q) (vx p) (vy q)).
Proof.
  intros Hr Hv. rewrite collide_with_impulse.
  - unfold bounced_self, bounced_other.
    rewrite horizontal_dvn, horizontal_normal_x, horizontal_normal_y,
      horizontal_dist.
    unfold fgt. destruct (Rgt_dec _ _) as [_ | Hn]; [| lra].
    do 2 f_equal; f_equal; ring.
  - rewrite horizontal_dist2. unfold PARTICLE_RADIUS in *. nra.
  - rewrite horizontal_dvn. lra.
Qed.
End Horizontal.

Lemma move_wall_pair :
  move wall_pair = [mkParticle 5 300 2 0; mkParticle 9 300 2 0].
Proof.
  unfold move, wall_pair. cbn [map]. unfold update_position. cbn [x y vx vy].
  rewrite check_walls_left, check_walls_inside;
    cbn [x y vx vy]; unfold_consts; try lra.
  do 2 f_equal; f_equal; lra.
Qed.

Lemma same_cell_pairs_0_15 :
  collision_pairs (fill_grid [(0, 15); (0, 15)]%Z (clear_grid new_grid))
  = [(0, 1)%nat].
Proof. vm_compute. reflexivity. Qed.

Lemma frame_wall_pair :
  frame (init wall_pair)
  = Ok (mkState [mkParticle 2 300 2 0; mkParticle 12 300 2 0]
                (fill_grid [(0, 15); (0, 15)]%Z (clear_grid new_grid))
                (kinetic_energy wall_pair),
        []).
Proof.
  unfold frame, physics. cbn [particles grid total_energy init].
  rewrite move_wall_pair. cbn [map].
  rewrite !(cell_of_eq _ 0 15) by
    (cbn [x y]; unfold CELL_SIZE, PARTICLE_RADIUS, GRID_W, GRID_H;
     cbn; try lia; lra).
  rewrite check_collisions_pairs, same_cell_pairs_0_15.
  cbn [for_each fst snd bind]. unfold collide_at. cbn [nth_error].
  rewrite (horizontal_bounce _ _ 4) by
    (cbn [x y vx vy]; unfold PARTICLE_RADIUS; lra).
  cbn [bind fst snd set_nth x y vx vy]. unfold PARTICLE_RADIUS.
  replace (5 - (2 * 5 - 4) / 2) with 2 by lra.
  replace (9 + (2 * 5 - 4) / 2) with 12 by lra.
  f_equal. f_equal.
  unfold energy_check, kinetic_energy, wall_pair. cbn [fold_left vx vy].
  unfold fgt. destruct (Rgt_dec _ _) as [Hg | _]; [| reflexivity].
  exfalso. unfold ENERGY_TOLERANCE in Hg. rewrite Rabs_right in Hg; lra.
Qed.

(** C3, as the claim states it, at [wall_pair]: the frame returns, and the
    correction of the overlap has pushed the first body through the left
    wall, to [x = 2 < PARTICLE_RADIUS]. *)
Lemma frame_escapes_domain :
  exists st' out,
    frame (init wall_pair) = Ok (st', out) /\
    ~ Forall contained (particles st').
Proof.
  eexists _, _. split; [apply frame_wall_pair |].
  cbn [particles]. intros H. inversion H as [| p l Hp _]; subst.
  destruct Hp as [[Hx _] _]. cbn [x] in Hx. unfold PARTICLE_RADIUS in Hx. lra.
Qed.

Lemma move_corner_pair :
  move corner_pair = [mkParticle 5 5 2 2; mkParticle 5 5 3 2].
Proof.
  unfold move, corner_pair. cbn [map]. unfold update_position. cbn [x y vx vy].
  rewrite !check_walls_corner; cbn [x y vx vy]; unfold_consts; try lra.
  do 2 f_equal; f_equal; lra.
Qed.

Lemma same_cell_pairs_0_0 :
  collision_pairs (fill_grid [(0, 0); (0, 0)]%Z (clear_grid new_grid))
  = [(0, 1)%nat].
Proof. vm_compute. reflexivity. Qed.

(** The exception of [collide_with] is not caught anywhere: the frame, and
    with it [simulate], ends with it. *)
Lemma frame_corner_pair_raises :
  frame (init corner_pair) = Raise ZeroDivisionError.
Proof.
  unfold frame, physics. cbn [particles grid total_energy init].
  rewrite move_corner_pair. cbn [map].
  rewrite !(cell_of_eq _ 0 0) by
    (cbn [x y]; unfold CELL_SIZE, PARTICLE_RADIUS, GRID_W, GRID_H;
     cbn; try lia; lra).
  rewrite check_collisions_pairs, same_cell_pairs_0_0.
  cbn [for_each fst snd bind]. unfold collide_at. cbn [nth_error].
  rewrite collide_with_coincident by (unfold dist2; cbn [x y]; ring).
  reflexivity.
Qed.

(** ** The energy monitor *)

Lemma kinetic_energy_from (ps : list Particle) (acc : R) :
  fold_left (fun a p => a + 0.5 * (vx p ^ 2 + vy p ^ 2)) ps acc
  = acc + kinetic_energy ps.
Proof.
  unfold kinetic_energy. revert acc.
  induction ps as [| p ps IH]; intros acc; cbn [fold_left].
  - ring.
  - rewrite IH, (IH (0 + _)). ring.
Qed.

Lemma kinetic_energy_cons (p : Particle) (ps : list Particle) :
  kinetic_energy (p :: ps) = 0.5 * (vx p ^ 2 + vy p ^ 2) + kinetic_energy ps.
Proof.
  unfold kinetic_energy at 1. cbn [fold_left]. rewrite kinetic_energy_from. ring.
Qed.

Lemma frame_total_energy (st st' : State) (out : list output) :
  frame st = Ok (st', out) -> total_energy st' = total_energy st.
Proof.
  unfold frame. destruct (physics st) as [r | e]; cbn [bind]; [| discriminate].
  intros H. injection H as <- _. reflexivity.
Qed.

(** The baseline is the energy of the first particles, and no frame changes
    it. *)
Lemma baseline_fixed (n : nat) (ps : list Particle) (st' : State)
      (out : list output) :
  simulate ps n = Ok (st', out) -> total_energy st' = kinetic_energy ps.
Proof.
  unfold simulate. change (kinetic_energy ps) with (total_energy (init ps)).
  generalize (init ps) as st. revert st' out.
  induction n as [| n IH]; intros st' out st; cbn [frames].
  - intros H. injection H as <- _. reflexivity.
  - destruct (frame st) as [[st1 o1] |] eqn:Hf; cbn [bind fst snd]; [| discriminate].
    destruct (frames n st1) as [[st2 o2] |] eqn:Hn; cbn [bind fst snd]; [| discriminate].
    intros H. injection H as <- _.
    rewrite (IH _ _ _ Hn). apply (frame_total_energy _ _ _ Hf).
Qed.

(** In the model over the reals: in a frame whose motion and collisions
    return, the monitor prints a warning that carries [|E - E0|] when that is
    above the tolerance and nothing otherwise, and the frame returns in both
    cases, with the baseline [E0] as it was. *)
Lemma frame_energy_check (st : State) (ps' : list Particle) (g' : Grid) :
  physics st = Ok (ps', g') ->
  exists out,
    frame st = Ok (mkState ps' g' (total_energy st), out) /\
    (Rabs (kinetic_energy ps' - total_energy st) > ENERGY_TOLERANCE ->
     out = [EnergyWarning (Rabs (kinetic_energy ps' - total_energy st))]) /\
    (~ Rabs (kinetic_energy ps' - total_energy st) > ENERGY_TOLERANCE -> out = []).
Proof.
  intros Hp. unfold frame. rewrite Hp. cbn [bind fst snd].
  eexists. split; [reflexivity |].
  unfold energy_check, fgt.
  destruct (Rgt_dec _ _) as [Hg | Hn]; split; intros H;
    try reflexivity; contradiction.
Qed.

Lemma physics_lone_state :
  physics lone_state
  = Ok ([mkParticle 101 300 1 0], fill_grid [(5, 15)]%Z (clear_grid new_grid)).
Proof.
  unfold physics, lone_state, move. cbn [particles grid map].
  unfold update_position. cbn [x y vx vy].
  rewrite check_walls_inside by (cbn [x y]; unfold_consts; lra).
  rewrite (cell_of_eq _ 5 15) by
    (cbn [x y]; unfold CELL_SIZE, PARTICLE_RADIUS, DT, GRID_W, GRID_H;
     cbn; try lia; lra).
  rewrite check_collisions_pairs.
  replace (collision_pairs (fill_grid [(5, 15)]%Z (clear_grid new_grid)))
    with (@nil (nat * nat)) by (vm_compute; reflexivity).
  cbn [for_each bind]. unfold DT. do 3 f_equal. f_equal; lra.
Qed.

Lemma frame_energy_check_lone_state :
  exists out,
    frame lone_state
    = Ok (mkState [mkParticle 101 300 1 0]
                  (fill_grid [(5, 15)]%Z (clear_grid new_grid))
                  (total_energy lone_state), out) /\
    (Rabs (kinetic_energy [mkParticle 101 300 1 0] - total_energy lone_state)
     > ENERGY_TOLERANCE ->
     out = [EnergyWarning
              (Rabs (kinetic_energy [mkParticle 101 300 1 0]
                     - total_energy lone_state))]) /\
    (~ Rabs (kinetic_energy [mkParticle 101 300 1 0] - total_energy lone_state)
       > ENERGY_TOLERANCE -> out = []).
Proof.
  apply (frame_energy_check lone_state). apply physics_lone_state.
Defined.

(** ** What the grid holds, and which pairs the loops test *)

Section UpdateNth.
Context {A : Type}.

Lemma update_nth_length (i : nat) (f : A -> A) (l : list A) :
  length (update_nth i f l) = length l.
Proof.
  revert i. induction l as [| a l IH]; intros [| i]; cbn; auto.
Qed.

Lemma nth_update_nth_eq (i : nat) (f : A -> A) (l : list A) (d : A) :
  (i < length l)%nat -> nth i (update_nth i f l) d = f (nth i l d).
Proof.
  revert i. induction l as [| a l IH]; intros [| i] Hi; cbn in *; try lia.
  - reflexivity.
  - apply IH. lia.
Qed.

Lemma nth_update_nth_neq (i k : nat) (f : A -> A) (l : list A) (d : A) :
  k <> i -> nth k (update_nth i f l) d = nth k l d.
Proof.
  revert i k. induction l as [| a l IH]; intros [| i] [| k] Hk; cbn;
    try reflexivity; try lia.
  apply IH. lia.
Qed.
End UpdateNth.

Lemma nth_map_lt {A B : Type} (f : A -> B) (l : list A) (k : nat) (d : B) (d0 : A) :
  (k < length l)%nat -> nth k (map f l) d = f (nth k l d0).
Proof.
  revert k. induction l as [| a l IH]; intros [| k] Hk; cbn in *; try lia.
  - reflexivity.
  - apply IH. lia.
Qed.

Lemma range_length (n : Z) : length (range n) = Z.to_nat n.
Proof.
  unfold range, range2. rewrite length_map, length_seq. f_equal. lia.
Qed.

Lemma in_range (n k : Z) : In k (range n) <-> (0 <= k < n)%Z.
Proof.
  unfold range, range2. rewrite in_map_iff. split.
  - intros [i [<- Hi]]. apply in_seq in Hi. lia.
  - intros Hk. exists (Z.to_nat k). split; [lia | apply in_seq; lia].
Qed.

Lemma range_NoDup (n : Z) : NoDup (range n).
Proof.
  unfold range, range2. apply NoDup_map_NoDup_ForallPairs.
  - intros i j _ _ H. lia.
  - apply seq_NoDup.
Qed.

Lemma well_shaped_new_grid : well_shaped new_grid.
Proof.
  split.
  - unfold new_grid. rewrite length_map. apply range_length.
  - intros k Hk. unfold new_grid in *. rewrite length_map in Hk.
    rewrite (nth_map_lt _ _ _ _ 0%Z) by exact Hk.
    rewrite length_map. apply range_length.
Qed.

Lemma well_shaped_clear (g : Grid) : well_shaped g -> well_shaped (clear_grid g).
Proof.
  intros [Hw Hh]. unfold clear_grid. split.
  - rewrite length_map. exact Hw.
  - intros k Hk. rewrite length_map in Hk.
    rewrite (nth_map_lt _ _ _ _ []) by exact Hk.
    rewrite length_map. apply Hh, Hk.
Qed.

Lemma grid_get_clear (g : Grid) (gx gy : Z) : grid_get (clear_grid g) gx gy = [].
Proof.
  unfold grid_get, clear_grid.
  destruct (Nat.lt_ge_cases (Z.to_nat gx) (length g)) as [Hx | Hx].
  - rewrite (nth_map_lt _ _ _ _ []) by exact Hx.
    set (col := nth (Z.to_nat gx) g []).
    destruct (Nat.lt_ge_cases (Z.to_nat gy) (length col)) as [Hy | Hy].
    + rewrite (nth_map_lt _ _ _ _ []) by exact Hy. reflexivity.
    + apply nth_overflow. rewrite length_map. exact Hy.
  - rewrite (nth_overflow (map _ g)) by (rewrite length_map; exact Hx).
    destruct (Z.to_nat gy); reflexivity.
Qed.

Lemma well_shaped_append (g : Grid) (gx gy : Z) (i : nat) :
  well_shaped g -> well_shaped (grid_append g gx gy i).
Proof.
  intros [Hw Hh]. unfold grid_append. split.
  - rewrite update_nth_length. exact Hw.
  - intros k Hk. rewrite update_nth_length in Hk.
    destruct (Nat.eq_dec k (Z.to_nat gx)) as [-> | Hne].
    + rewrite nth_update_nth_eq by exact Hk.
      rewrite update_nth_length. apply Hh, Hk.
    + rewrite nth_update_nth_neq by exact Hne. apply Hh, Hk.
Qed.

Lemma in_grid_iff (gx gy : Z) :
  in_grid gx gy = true <-> (0 <= gx < GRID_W)%Z /\ (0 <= gy < GRID_H)%Z.
Proof. unfold in_grid. lia. Qed.

Lemma grid_get_append_same (g : Grid) (gx gy : Z) (i : nat) :
  well_shaped g -> in_grid gx gy = true ->
  grid_get (grid_append g gx gy i) gx gy = grid_get g gx gy ++ [i].
Proof.
  intros [Hw Hh] Hin. apply in_grid_iff in Hin.
  assert (Hx : (Z.to_nat gx < length g)%nat) by lia.
  unfold grid_get, grid_append.
  rewrite nth_update_nth_eq by exact Hx.
  rewrite nth_update_nth_eq by (rewrite (Hh _ Hx); lia).
  reflexivity.
Qed.

Lemma grid_get_append_other (g : Grid) (gx gy gx' gy' : Z) (i : nat) :
  in_grid gx gy = true -> in_grid gx' gy' = true ->
  (gx, gy) <> (gx', gy') ->
  grid_get (grid_append g gx gy i) gx' gy' = grid_get g gx' gy'.
Proof.
  intros Hin Hin' Hne. apply in_grid_iff in Hin, Hin'.
  unfold grid_get, grid_append.
  destruct (Z.eq_dec gx gx') as [<- | Hx].
  - assert (Hy : gy <> gy') by congruence.
    destruct (Nat.lt_ge_cases (Z.to_nat gx) (length g)) as [Hlt | Hge].
    + rewrite nth_update_nth_eq by exact Hlt.
      apply nth_update_nth_neq. lia.
    + rewrite (nth_overflow (update_nth _ _ g))
        by (rewrite update_nth_length; exact Hge).
      rewrite (nth_overflow g) by exact Hge. reflexivity.
  - rewrite nth_update_nth_neq by lia. reflexivity.
Qed.

Lemma cell_eqb_eq (c1 c2 : Z * Z) : cell_eqb c1 c2 = true <-> c1 = c2.
Proof.
  destruct c1 as [a b], c2 as [a' b']. unfold cell_eqb. cbn [fst snd].
  rewrite andb_true_iff, !Z.eqb_eq. split; [intros [-> ->] | intros [= -> ->]]; auto.
Qed.

Lemma grid_get_fill_from (cells : list (Z * Z)) :
  forall (i : nat) (g : Grid) (gx gy : Z),
    well_shaped g -> cells_in_grid cells -> in_grid gx gy = true ->
    grid_get (fill_from i cells g) gx gy
    = grid_get g gx gy
      ++ filter (fun k => cell_eqb (cell_at cells (k - i)) (gx, gy))
                (seq i (length cells)).
Proof.
  induction cells as [| [cx cy] cells IH]; intros i g gx gy Hg Hc Hin.
  - cbn. rewrite app_nil_r. reflexivity.
  - inversion Hc as [| c l Hc0 Hc']; subst. cbn [fst snd] in Hc0.
    cbn [fill_from length seq filter].
    rewrite IH by (try apply well_shaped_append; assumption).
    replace (i - i)%nat with O by lia. cbn [cell_at nth].
    assert (Hrest :
      filter (fun k => cell_eqb (cell_at cells (k - S i)) (gx, gy))
             (seq (S i) (length cells))
      = filter (fun k => cell_eqb (cell_at ((cx, cy) :: cells) (k - i)) (gx, gy))
               (seq (S i) (length cells))).
    { apply filter_ext_in. intros k Hk. apply in_seq in Hk.
      replace (k - i)%nat with (S (k - S i)) by lia. reflexivity. }
    rewrite Hrest.
    destruct (cell_eqb (cx, cy) (gx, gy)) eqn:He.
    + apply cell_eqb_eq in He. injection He as -> ->.
      rewrite grid_get_append_same by assumption.
      rewrite <- app_assoc. reflexivity.
    + rewrite grid_get_append_other; try assumption; [reflexivity |].
      intros Heq. rewrite <- cell_eqb_eq in Heq. congruence.
Qed.

(** After step 3 every cell of the grid holds the indexes of the bodies
    that are in it, in increasing order. *)
Lemma grid_get_fill (cells : list (Z * Z)) (gx gy : Z) :
  cells_in_grid cells -> in_grid gx gy = true ->
  grid_get (fill_grid cells (clear_grid new_grid)) gx gy = members cells (gx, gy).
Proof.
  intros Hc Hin. unfold fill_grid.
  rewrite grid_get_fill_from;
    [| apply well_shaped_clear, well_shaped_new_grid | assumption | assumption].
  rewrite grid_get_clear. cbn [app]. unfold members.
  apply filter_ext. intros k. rewrite Nat.sub_0_r. reflexivity.
Qed.

Lemma map_nth_seq (l : list nat) :
  map (fun j => nth j l O) (seq 0 (length l)) = l.
Proof.
  induction l as [| a l IH]; cbn [length seq map nth]; [reflexivity |].
  f_equal. rewrite <- seq_shift, map_map. exact IH.
Qed.

Lemma flat_map_map {A B C : Type} (f : A -> B) (g : B -> list C) (l : list A) :
  flat_map g (map f l) = flat_map (fun a => g (f a)) l.
Proof.
  induction l as [| a l IH]; cbn; [reflexivity | rewrite IH; reflexivity].
Qed.

(** The two index loops over a cell pair every body with those after it. *)
Lemma cell_pairs_ordered (l : list nat) : cell_pairs l = ordered_pairs l.
Proof.
  induction l as [| a l IH]; [reflexivity |].
  unfold cell_pairs. cbn [length seq flat_map ordered_pairs].
  f_equal.
  - replace (S (length l) - (0 + 1))%nat with (length l) by lia.
    cbn [Nat.add]. rewrite <- seq_shift, map_map. cbn [nth].
    transitivity (map (pair a) (map (fun j => nth j l O) (seq 0 (length l))));
      [rewrite map_map; reflexivity | rewrite map_nth_seq; reflexivity].
  - rewrite <- IH. unfold cell_pairs.
    rewrite <- seq_shift, flat_map_map.
    apply flat_map_ext. intros i.
    replace (S (length l) - (S i + 1))%nat with (length l - (i + 1))%nat by lia.
    replace (S i + 1)%nat with (S (i + 1)) by lia.
    rewrite <- seq_shift, map_map. reflexivity.
Qed.

Lemma in_ordered_pairs (l : list nat) (a b : nat) :
  StronglySorted lt l ->
  (In (a, b) (ordered_pairs l) <-> In a l /\ In b l /\ (a < b)%nat).
Proof.
  intros Hs. induction Hs as [| h t Hs IH Hh]; cbn [ordered_pairs In].
  - tauto.
  - rewrite Forall_forall in Hh. rewrite in_app_iff, in_map_iff, IH. split.
    + intros [[b' [[= <- <-] Hb]] | [Ha [Hb Hlt]]]; auto using Hh.
    + intros [[<- | Ha] [[<- | Hb] Hlt]].
      * lia.
      * left. exists b. auto.
      * apply Hh in Ha. lia.
      * right. auto.
Qed.

Lemma sorted_NoDup (l : list nat) : StronglySorted lt l -> NoDup l.
Proof.
  intros Hs. induction Hs as [| h t Hs IH Hh]; constructor; [| exact IH].
  rewrite Forall_forall in Hh. intros Hin. apply Hh in Hin. lia.
Qed.

Lemma ordered_pairs_NoDup (l : list nat) :
  StronglySorted lt l -> NoDup (ordered_pairs l).
Proof.
  intros Hs. induction Hs as [| h t Hs IH Hh]; cbn [ordered_pairs].
  - constructor.
  - apply NoDup_app.
    + apply NoDup_map_NoDup_ForallPairs; [| apply sorted_NoDup, Hs].
      intros u v _ _ [= ->]. reflexivity.
    + exact IH.
    + intros [u v] Hm Ho. apply in_map_iff in Hm as [v' [[= <- <-] _]].
      apply (in_ordered_pairs t h v' Hs) in Ho as [Ha _].
      rewrite Forall_forall in Hh. apply Hh in Ha. lia.
Qed.

Lemma in_cross_pairs (cell neighbor : list nat) (a b : nat) :
  In (a, b) (cross_pairs cell neighbor)
  <-> In a cell /\ In b neighbor /\ (a < b)%nat.
Proof.
  unfold cross_pairs. rewrite in_flat_map. split.
  - intros [i [Hi Hin]]. apply in_flat_map in Hin as [j [Hj Hin]].
    destruct (Nat.ltb_spec i j) as [Hlt | Hge]; [| contradiction].
    destruct Hin as [[= <- <-] | []]. auto.
  - intros [Ha [Hb Hlt]]. exists a. split; [exact Ha |].
    apply in_flat_map. exists b. split; [exact Hb |].
    destruct (Nat.ltb_spec a b); [left; reflexivity | lia].
Qed.

Lemma NoDup_flat_map {A B : Type} (f : A -> list B) (l : list A) :
  NoDup l ->
  (forall a, In a l -> NoDup (f a)) ->
  (forall a a' b, In a l -> In a' l -> In b (f a) -> In b (f a') -> a = a') ->
  NoDup (flat_map f l).
Proof.
  intros Hl. induction Hl as [| a l Ha Hl IH]; intros Hf Hd; cbn [flat_map].
  - constructor.
  - apply NoDup_app.
    + apply Hf. left. reflexivity.
    + apply IH.
      * intros a' Ha'. apply Hf. right. exact Ha'.
      * intros a1 a2 b H1 H2. apply Hd; right; assumption.
    + intros b Hb Hin. apply in_flat_map in Hin as [a' [Ha' Hb']].
      assert (a = a') by (apply (Hd a a' b); auto using in_eq, in_cons).
      subst a'. contradiction.
Qed.

Lemma cross_pairs_NoDup (cell neighbor : list nat) :
  NoDup cell -> NoDup neighbor -> NoDup (cross_pairs cell neighbor).
Proof.
  intros Hc Hn. unfold cross_pairs. apply NoDup_flat_map; [exact Hc | |].
  - intros i _. apply NoDup_flat_map; [exact Hn | |].
    + intros j _. destruct (i <? j)%nat; repeat constructor. intros [].
    + intros j j' [u v] _ _ H1 H2.
      destruct (i <? j)%nat; [| contradiction].
      destruct (i <? j')%nat; [| contradiction].
      destruct H1 as [[= <- <-] | []]. destruct H2 as [H2 | []].
      congruence.
  - intros i i' [u v] _ _ H1 H2.
    apply in_flat_map in H1 as [j [_ H1]]. apply in_flat_map in H2 as [j' [_ H2]].
    destruct (i <? j)%nat; [| contradiction].
    destruct (i' <? j')%nat; [| contradiction].
    destruct H1 as [[= <- <-] | []]. destruct H2 as [H2 | []].
    congruence.
Qed.

Lemma seq_sorted (len start : nat) : StronglySorted lt (seq start len).
Proof.
  revert start. induction len as [| len IH]; intros start; cbn [seq];
    constructor; [apply IH |].
  apply Forall_forall. intros k Hk. apply in_seq in Hk. lia.
Qed.

Lemma filter_sorted (f : nat -> bool) (l : list nat) :
  StronglySorted lt l -> StronglySorted lt (filter f l).
Proof.
  intros Hs. induction Hs as [| h t Hs IH Hh]; cbn [filter]; [constructor |].
  destruct (f h); [| exact IH]. constructor; [exact IH |].
  rewrite Forall_forall in *. intros k Hk. apply filter_In in Hk as [Hk _].
  apply Hh, Hk.
Qed.

Lemma members_sorted (cells : list (Z * Z)) (c : Z * Z) :
  StronglySorted lt (members cells c).
Proof. apply filter_sorted, seq_sorted. Qed.

Lemma in_members (cells : list (Z * Z)) (c : Z * Z) (k : nat) :
  In k (members cells c) <-> (k < length cells)%nat /\ cell_at cells k = c.
Proof.
  unfold members. rewrite filter_In, in_seq, cell_eqb_eq. intuition lia.
Qed.

Lemma flat_map_ext_range {B : Type} (f g : Z -> list B) (n : Z) :
  (forall k, (0 <= k < n)%Z -> f k = g k) ->
  flat_map f (range n) = flat_map g (range n).
Proof.
  intros H. assert (Hin : forall k, In k (range n) -> f k = g k)
    by (intros k Hk; apply H, in_range, Hk).
  induction (range n) as [| k l IH]; cbn; [reflexivity |].
  rewrite Hin by (left; reflexivity). f_equal.
  apply IH. intros k' Hk'. apply Hin. right. exact Hk'.
Qed.

Lemma tested_pairs_cell_tests (cells : list (Z * Z)) :
  cells_in_grid cells ->
  tested_pairs cells
  = flat_map (fun gx =>
      flat_map (fun gy => cell_tests cells (gx, gy)) (range GRID_H))
      (range GRID_W).
Proof.
  intros Hc. unfold tested_pairs, collision_pairs.
  apply flat_map_ext_range. intros gx Hgx.
  apply flat_map_ext_range. intros gy Hgy. cbn zeta.
  assert (Hin : in_grid gx gy = true) by (apply in_grid_iff; auto).
  rewrite grid_get_fill by assumption.
  rewrite cell_pairs_ordered. unfold cell_tests. f_equal.
  unfold neighbor_pairs. apply flat_map_ext. intros d. cbn [shift fst snd].
  destruct (in_grid (gx + fst d) (gy + snd d)) eqn:Hd; [| reflexivity].
  rewrite grid_get_fill by assumption. reflexivity.
Qed.

Lemma in_half_stencil (d : Z * Z) :
  In d half_stencil
  <-> d = (1, 0)%Z \/ d = (1, -1)%Z \/ d = (0, -1)%Z \/ d = (-1, -1)%Z.
Proof. unfold half_stencil. cbn [In]. intuition congruence. Qed.

Lemma half_stencil_NoDup : NoDup half_stencil.
Proof.
  unfold half_stencil. repeat constructor; cbn [In]; intuition congruence.
Qed.

Lemma shift_inj (c d d' : Z * Z) : shift c d = shift c d' -> d = d'.
Proof.
  destruct c, d, d'. unfold shift. cbn [fst snd]. intros [= H1 H2].
  f_equal; lia.
Qed.

Lemma shift_half_stencil_neq (c d : Z * Z) : In d half_stencil -> shift c d <> c.
Proof.
  intros Hd Heq. destruct c as [cx cy]. unfold shift in Heq. cbn [fst snd] in Heq.
  injection Heq as H1 H2.
  apply in_half_stencil in Hd as [-> | [-> | [-> | ->]]]; cbn [fst snd] in *; lia.
Qed.

Lemma cells_in_grid_at (cells : list (Z * Z)) (k : nat) :
  cells_in_grid cells -> (k < length cells)%nat ->
  in_grid (fst (cell_at cells k)) (snd (cell_at cells k)) = true.
Proof.
  intros Hc Hk. unfold cells_in_grid in Hc. rewrite Forall_forall in Hc.
  apply Hc. unfold cell_at. apply nth_In, Hk.
Qed.

Lemma in_cell_tests_inv (cells : list (Z * Z)) (c : Z * Z) (i j : nat) :
  In (i, j) (cell_tests cells c) ->
  (i < j < length cells)%nat /\ cell_at cells i = c /\
  (cell_at cells j = c \/
   exists d, In d half_stencil /\ cell_at cells j = shift c d).
Proof.
  unfold cell_tests. rewrite in_app_iff, in_flat_map.
  intros [Ho | [d [Hd Hx]]].
  - apply in_ordered_pairs in Ho as [Hi [Hj Hlt]]; [| apply members_sorted].
    apply in_members in Hi as [_ Hi], Hj as [Hj Hj']. auto.
  - destruct (in_grid _ _); [| contradiction].
    apply in_cross_pairs in Hx as [Hi [Hj Hlt]].
    apply in_members in Hi as [_ Hi], Hj as [Hj Hj'].
    split; [lia |]. split; [exact Hi |]. right. exists d. auto.
Qed.

Lemma in_cell_tests (cells : list (Z * Z)) (c : Z * Z) (i j : nat) :
  cells_in_grid cells ->
  (In (i, j) (cell_tests cells c)
   <-> (i < j < length cells)%nat /\ cell_at cells i = c /\
       (cell_at cells j = c \/
        exists d, In d half_stencil /\ cell_at cells j = shift c d)).
Proof.
  intros Hc. split; [apply in_cell_tests_inv |].
  intros [Hlt [Hi [Hj | [d [Hd Hj]]]]]; unfold cell_tests; apply in_app_iff.
  - left. apply in_ordered_pairs; [apply members_sorted |].
    rewrite !in_members. repeat split; auto; lia.
  - right. apply in_flat_map. exists d. split; [exact Hd |].
    rewrite <- Hj, (cells_in_grid_at cells j Hc) by lia.
    apply in_cross_pairs. rewrite !in_members. repeat split; auto; lia.
Qed.

Lemma cell_tests_NoDup (cells : list (Z * Z)) (c : Z * Z) :
  NoDup (cell_tests cells c).
Proof.
  unfold cell_tests. apply NoDup_app.
  - apply ordered_pairs_NoDup, members_sorted.
  - apply NoDup_flat_map; [apply half_stencil_NoDup | |].
    + intros d _. destruct (in_grid _ _); [| constructor].
      apply cross_pairs_NoDup; apply sorted_NoDup, members_sorted.
    + intros d d' [i j] _ _ H1 H2.
      destruct (in_grid (fst (shift c d)) _); [| contradiction].
      destruct (in_grid (fst (shift c d')) _); [| contradiction].
      apply in_cross_pairs in H1 as [_ [H1 _]], H2 as [_ [H2 _]].
      apply in_members in H1 as [_ H1], H2 as [_ H2].
      apply (shift_inj c). congruence.
  - intros [i j] Ho Hn.
    apply in_ordered_pairs in Ho as [_ [Hj _]]; [| apply members_sorted].
    apply in_members in Hj as [_ Hj].
    apply in_flat_map in Hn as [d [Hd Hx]].
    destruct (in_grid _ _); [| contradiction].
    apply in_cross_pairs in Hx as [_ [Hj' _]].
    apply in_members in Hj' as [_ Hj'].
    apply (shift_half_stencil_neq c d Hd). congruence.
Qed.

Lemma in_tested_pairs (cells : list (Z * Z)) (i j : nat) :
  cells_in_grid cells ->
  (In (i, j) (tested_pairs cells)
   <-> (i < j < length cells)%nat /\
       (cell_at cells j = cell_at cells i \/
        exists d, In d half_stencil /\
                  cell_at cells j = shift (cell_at cells i) d)).
Proof.
  intros Hc. rewrite tested_pairs_cell_tests by exact Hc.
  rewrite in_flat_map. split.
  - intros [gx [_ Hin]]. apply in_flat_map in Hin as [gy [_ Hin]].
    apply in_cell_tests_inv in Hin as [Hlt [<- Hj]]. auto.
  - intros [Hlt Hj].
    pose proof (cells_in_grid_at cells i Hc ltac:(lia)) as Hg.
    apply in_grid_iff in Hg as [Hgx Hgy].
    exists (fst (cell_at cells i)). split; [apply in_range, Hgx |].
    apply in_flat_map. exists (snd (cell_at cells i)).
    split; [apply in_range, Hgy |].
    rewrite <- surjective_pairing. apply in_cell_tests; auto.
Qed.

(** Which pairs the loops test: [i < j], with body [j] in the cell of body
    [i] or in one of the four cells that the half stencil reaches from it. *)
Theorem tested_pairs_spec (cells : list (Z * Z)) (i j : nat) :
  cells_in_grid cells ->
  (In (i, j) (tested_pairs cells)
   <-> (i < j < length cells)%nat /\
       (cell_at cells j = cell_at cells i \/
        exists d, In d half_stencil /\
                  cell_at cells j = shift (cell_at cells i) d)).
Proof.
  intros Hc. split.
  - intros Hin. apply (in_tested_pairs cells i j Hc), Hin.
  - intros Hs. apply (in_tested_pairs cells i j Hc), Hs.
Qed.

(** No pair is tested twice. *)
Theorem tested_pairs_NoDup (cells : list (Z * Z)) :
  cells_in_grid cells -> NoDup (tested_pairs cells).
Proof.
  intros Hc. rewrite tested_pairs_cell_tests by exact Hc.
  apply NoDup_flat_map; [apply range_NoDup | |].
  - intros gx _. apply NoDup_flat_map; [apply range_NoDup | |].
    + intros gy _. apply cell_tests_NoDup.
    + intros gy gy' [i j] _ _ H1 H2.
      apply in_cell_tests_inv in H1 as [_ [H1 _]], H2 as [_ [H2 _]].
      congruence.
  - intros gx gx' [i j] _ _ H1 H2.
    apply in_flat_map in H1 as [gy [_ H1]], H2 as [gy' [_ H2]].
    apply in_cell_tests_inv in H1 as [_ [H1 _]], H2 as [_ [H2 _]].
    congruence.
Qed.

Lemma in_brute_force_pairs (cells : list (Z * Z)) (i j : nat) :
  In (i, j) (brute_force_pairs cells)
  <-> (i < j < length cells)%nat /\
      near (cell_at cells i) (cell_at cells j) = true.
Proof.
  unfold brute_force_pairs. fold (cell_at cells). rewrite in_flat_map. split.
  - intros [i' [Hi Hin]]. apply in_flat_map in Hin as [j' [Hj Hin]].
    apply in_seq in Hi, Hj.
    fold (cell_at cells i') in Hin. fold (cell_at cells j') in Hin.
    destruct (near _ _) eqn:Hn; [| contradiction].
    destruct Hin as [[= <- <-] | []]. split; [lia | exact Hn].
  - intros [Hlt Hn]. exists i. split; [apply in_seq; lia |].
    apply in_flat_map. exists j. split; [apply in_seq; lia |].
    fold (cell_at cells i). fold (cell_at cells j). rewrite Hn.
    left. reflexivity.
Qed.

Ltac pick_offset :=
  first [ exists (1, 0)%Z; split; [apply in_half_stencil; tauto |];
            unfold shift; cbn [fst snd]; f_equal; lia
        | exists (1, -1)%Z; split; [apply in_half_stencil; tauto |];
            unfold shift; cbn [fst snd]; f_equal; lia
        | exists (0, -1)%Z; split; [apply in_half_stencil; tauto |];
            unfold shift; cbn [fst snd]; f_equal; lia
        | exists (-1, -1)%Z; split; [apply in_half_stencil; tauto |];
            unfold shift; cbn [fst snd]; f_equal; lia ].

(** The neighbourhood of a cell is the cell, the four cells of the half
    stencil, and the four cells from which the half stencil reaches it. *)
Lemma near_cases (c1 c2 : Z * Z) :
  near c1 c2 = true
  <-> c2 = c1 \/
      (exists d, In d half_stencil /\ c2 = shift c1 d) \/
      (exists d, In d half_stencil /\ c1 = shift c2 d).
Proof.
  destruct c1 as [a b], c2 as [a' b']. unfold near. cbn [fst snd].
  rewrite andb_true_iff, !Z.leb_le. split.
  - intros [Hx Hy].
    assert (Hdx : (a' = a - 1 \/ a' = a \/ a' = a + 1)%Z) by lia.
    assert (Hdy : (b' = b - 1 \/ b' = b \/ b' = b + 1)%Z) by lia.
    destruct Hdx as [-> | [-> | ->]], Hdy as [-> | [-> | ->]];
      first [ left; reflexivity
            | right; left; pick_offset
            | right; right; pick_offset ].
  - intros [[= -> ->] | [[d [Hd Hs]] | [d [Hd Hs]]]]; [lia | |];
      apply in_half_stencil in Hd as [-> | [-> | [-> | ->]]];
      unfold shift in Hs; cbn [fst snd] in Hs; injection Hs as -> ->; lia.
Qed.

(** Every tested pair is a pair of the brute-force enumeration. *)
Theorem tested_pairs_sound (cells : list (Z * Z)) :
  cells_in_grid cells -> incl (tested_pairs cells) (brute_force_pairs cells).
Proof.
  intros Hc [i j] Hin. apply in_tested_pairs in Hin as [Hlt Hj]; [| exact Hc].
  apply in_brute_force_pairs. split; [exact Hlt |].
  apply near_cases. destruct Hj as [Hj | Hj]; auto.
Qed.

(** The pairs of the brute-force enumeration that the loops leave out: those
    whose body of lower index is in a cell that the half stencil reaches from
    the cell of the other. *)
Theorem untested_pairs (cells : list (Z * Z)) (i j : nat) :
  cells_in_grid cells ->
  (In (i, j) (brute_force_pairs cells) /\ ~ In (i, j) (tested_pairs cells)
   <-> (i < j < length cells)%nat /\
       exists d, In d half_stencil /\
                 cell_at cells i = shift (cell_at cells j) d).
Proof.
  intros Hc. rewrite in_brute_force_pairs, in_tested_pairs, near_cases by exact Hc.
  split.
  - intros [[Hlt [Hs | [Hf | Hb]]] Hn]; [exfalso; auto | exfalso; auto | auto].
  - intros [Hlt [d [Hd Hb]]]. split; [eauto 6 |].
    intros [_ [Hs | [d' [Hd' Hf]]]].
    + apply (shift_half_stencil_neq (cell_at cells j) d Hd). congruence.
    + rewrite Hf in Hb. destruct (cell_at cells i) as [a b].
      unfold shift in Hb. cbn [fst snd] in Hb. injection Hb as H1 H2.
      apply in_half_stencil in Hd as [-> | [-> | [-> | ->]]];
        apply in_half_stencil in Hd' as [-> | [-> | [-> | ->]]];
        cbn [fst snd] in *; lia.
Qed.

(** ** The frame tests the pairs of [tested_pairs] *)

Lemma cell_of_in_grid (p : Particle) :
  in_grid (fst (cell_of p)) (snd (cell_of p)) = true.
Proof.
  unfold cell_of. cbn [fst snd]. apply in_grid_iff.
  unfold GRID_W, GRID_H. cbn. lia.
Qed.

Lemma cells_of_in_grid (ps : list Particle) : cells_in_grid (map cell_of ps).
Proof.
  unfold cells_in_grid. apply Forall_forall. intros c Hc.
  apply in_map_iff in Hc as [p [<- _]]. apply cell_of_in_grid.
Qed.

Lemma map_const_repeat {A B : Type} (b : B) (l : list A) :
  map (fun _ => b) l = repeat b (length l).
Proof.
  induction l as [| a l IH]; cbn; [reflexivity | rewrite IH; reflexivity].
Qed.

(** Clearing gives the same grid whatever the cells held. *)
Lemma clear_grid_well_shaped (g : Grid) :
  well_shaped g ->
  clear_grid g = repeat (repeat [] (Z.to_nat GRID_H)) (Z.to_nat GRID_W).
Proof.
  intros [Hw Hh]. unfold clear_grid. rewrite <- Hw, <- map_const_repeat.
  apply map_ext_in. intros col Hcol.
  rewrite map_const_repeat. f_equal.
  apply (In_nth _ _ []) in Hcol as [k [Hk <-]]. apply Hh, Hk.
Qed.

Lemma well_shaped_fill_from (cells : list (Z * Z)) :
  forall (i : nat) (g : Grid), well_shaped g -> well_shaped (fill_from i cells g).
Proof.
  induction cells as [| [cx cy] cells IH]; intros i g Hg; cbn [fill_from].
  - exact Hg.
  - apply IH, well_shaped_append, Hg.
Qed.

(** In a frame that starts with a grid of the right shape, steps 2 to 4
    call [collide_with] on the pairs of [tested_pairs], in that order, and
    leave a grid of the right shape. *)
Lemma physics_tested_pairs (st : State) :
  well_shaped (grid st) ->
  let ps := move (particles st) in
  let g := fill_grid (map cell_of ps) (clear_grid new_grid) in
  well_shaped g /\
  physics st
  = (ps' <- for_each (tested_pairs (map cell_of ps))
                     (fun ij => collide_at (fst ij) (snd ij)) ps ;;
     Ok (ps', g)).
Proof.
  intros Hg ps g. split.
  - apply well_shaped_fill_from, well_shaped_clear, well_shaped_new_grid.
  - unfold physics. fold ps.
    rewrite (clear_grid_well_shaped _ Hg),
      <- (clear_grid_well_shaped _ well_shaped_new_grid).
    fold g. rewrite check_collisions_pairs. reflexivity.
Qed.

(** ** The same two bodies, in both index orders *)

Lemma crossed_cells_pairs :
  collision_pairs (fill_grid crossed_cells (clear_grid new_grid)) = [].
Proof. vm_compute. reflexivity. Qed.

Lemma uncrossed_cells_pairs :
  collision_pairs (fill_grid [(0, 15); (1, 15)]%Z (clear_grid new_grid))
  = [(0, 1)%nat].
Proof. vm_compute. reflexivity. Qed.

Ltac frame_start :=
  unfold frame, physics, move; cbn [particles grid total_energy init map];
  unfold update_position; cbn [x y vx vy];
  rewrite !check_walls_inside by (cbn [x y]; unfold_consts; lra).

Ltac cell_side :=
  cbn [x y]; unfold CELL_SIZE, PARTICLE_RADIUS, DT, GRID_W, GRID_H;
  cbn; try lia; lra.

(** With the lower index on the right the frame makes no call, and the
    bodies stay eight units apart, overlapping. *)
Lemma frame_crossed_pair :
  frame (init crossed_pair)
  = Ok (mkState [mkParticle 26 300 1 0; mkParticle 18 300 1 0]
                (fill_grid crossed_cells (clear_grid new_grid))
                (kinetic_energy crossed_pair),
        []).
Proof.
  unfold crossed_pair. frame_start.
  rewrite (cell_of_eq _ 1 15), (cell_of_eq _ 0 15) by cell_side.
  fold crossed_cells. rewrite check_collisions_pairs, crossed_cells_pairs.
  cbn [for_each bind fst snd]. unfold DT.
  replace (25 + 1 * 1) with 26 by lra. replace (17 + 1 * 1) with 18 by lra.
  replace (300 + 0 * 1) with 300 by lra.
  f_equal. f_equal.
  unfold energy_check, kinetic_energy. cbn [fold_left vx vy].
  unfold fgt. destruct (Rgt_dec _ _) as [Hg | _]; [| reflexivity].
  exfalso. unfold ENERGY_TOLERANCE in Hg. rewrite Rabs_right in Hg; lra.
Qed.

(** With the lower index on the left the pair is tested, and the bodies are
    moved apart until they touch. *)
Lemma frame_uncrossed_pair :
  frame (init uncrossed_pair)
  = Ok (mkState [mkParticle 17 300 1 0; mkParticle 27 300 1 0]
                (fill_grid [(0, 15); (1, 15)]%Z (clear_grid new_grid))
                (kinetic_energy uncrossed_pair),
        []).
Proof.
  unfold uncrossed_pair. frame_start.
  rewrite (cell_of_eq _ 0 15), (cell_of_eq _ 1 15) by cell_side.
  rewrite check_collisions_pairs, uncrossed_cells_pairs.
  cbn [for_each bind fst snd]. unfold collide_at. cbn [nth_error].
  rewrite (horizontal_bounce _ _ 8) by
    (cbn [x y vx vy]; unfold PARTICLE_RADIUS, DT; lra).
  cbn [bind fst snd set_nth x y vx vy]. unfold PARTICLE_RADIUS, DT.
  replace (17 + 1 * 1 - (2 * 5 - 8) / 2) with 17 by lra.
  replace (25 + 1 * 1 + (2 * 5 - 8) / 2) with 27 by lra.
  replace (300 + 0 * 1) with 300 by lra.
  f_equal. f_equal.
  unfold energy_check, kinetic_energy. cbn [fold_left vx vy].
  unfold fgt. destruct (Rgt_dec _ _) as [Hg | _]; [| reflexivity].
  exfalso. unfold ENERGY_TOLERANCE in Hg. rewrite Rabs_right in Hg; lra.
Qed.

(** ** In real arithmetic the energy never leaves its baseline *)

Lemma collide_with_energy (p q p' q' : Particle) :
  collide_with p q = Ok (p', q') -> pair_energy p' q' = pair_energy p q.
Proof.
  intros H.
  destruct (Rle_dec (4 * PARTICLE_RADIUS * PARTICLE_RADIUS) (dist2 p q)) as [Hf | Hn].
  { rewrite collide_with_far in H by exact Hf. injection H as <- <-. reflexivity. }
  destruct (Req_dec_T (dist2 p q) 0) as [Hz | Hnz].
  { rewrite collide_with_coincident in H by exact Hz. discriminate. }
  assert (Hr : 0 < dist2 p q < 4 * PARTICLE_RADIUS * PARTICLE_RADIUS)
    by (pose proof (dist2_nonneg p q); lra).
  destruct (Rle_dec (dvn p q) 0) as [Hv | Hv].
  - rewrite collide_with_impulse in H by assumption. injection H as <- <-.
    apply bounced_energy, Hr.
  - rewrite collide_with_skip in H by (try assumption; lra).
    injection H as <- <-. reflexivity.
Qed.

Lemma kinetic_energy_set_nth (ps : list Particle) :
  forall (i : nat) (p p' : Particle),
    nth_error ps i = Some p ->
    kinetic_energy (set_nth i p' ps)
    = kinetic_energy ps - 0.5 * (vx p ^ 2 + vy p ^ 2)
      + 0.5 * (vx p' ^ 2 + vy p' ^ 2).
Proof.
  induction ps as [| a ps IH]; intros [| i] p p' H; cbn in H; try discriminate.
  - injection H as ->. cbn [set_nth]. rewrite !kinetic_energy_cons. ring.
  - cbn [set_nth]. rewrite !kinetic_energy_cons, (IH i p p' H). ring.
Qed.

Lemma nth_error_set_nth_neq {A : Type} (l : list A) :
  forall (i j : nat) (a : A),
    i <> j -> nth_error (set_nth i a l) j = nth_error l j.
Proof.
  induction l as [| b l IH]; intros [| i] [| j] a Hne; cbn;
    try reflexivity; try lia.
  apply IH. lia.
Qed.

Lemma collide_at_energy (i j : nat) (ps ps' : list Particle) :
  i <> j -> collide_at i j ps = Ok ps' ->
  kinetic_energy ps' = kinetic_energy ps.
Proof.
  intros Hne. unfold collide_at.
  destruct (nth_error ps i) as [p |] eqn:Hi; [| discriminate].
  destruct (nth_error ps j) as [q |] eqn:Hj; [| discriminate].
  destruct (collide_with p q) as [[p' q'] |] eqn:Hc; cbn [bind fst snd];
    [| discriminate].
  intros H. injection H as <-.
  rewrite (kinetic_energy_set_nth _ j q)
    by (rewrite nth_error_set_nth_neq by exact Hne; exact Hj).
  rewrite (kinetic_energy_set_nth _ i p) by exact Hi.
  pose proof (collide_with_energy p q p' q' Hc) as He.
  unfold pair_energy in He. lra.
Qed.

Lemma collisions_energy (pairs : list (nat * nat)) :
  Forall (fun ij => fst ij <> snd ij) pairs ->
  forall ps ps',
    for_each pairs (fun ij => collide_at (fst ij) (snd ij)) ps = Ok ps' ->
    kinetic_energy ps' = kinetic_energy ps.
Proof.
  intros Hp. induction Hp as [| ij pairs Hij Hp IH]; intros ps ps'; cbn [for_each].
  - intros H. injection H as <-. reflexivity.
  - destruct (collide_at (fst ij) (snd ij) ps) as [ps1 |] eqn:Hc; cbn [bind];
      [| discriminate].
    intros H. rewrite (IH _ _ H). apply (collide_at_energy _ _ _ _ Hij Hc).
Qed.

Lemma move_energy (ps : list Particle) :
  kinetic_energy (move ps) = kinetic_energy ps.
Proof.
  unfold move. induction ps as [| p ps IH]; [reflexivity |].
  cbn [map]. rewrite !kinetic_energy_cons, IH. f_equal.
  apply (check_walls_energy (update_position p)).
Qed.

Lemma tested_pairs_distinct (cells : list (Z * Z)) :
  cells_in_grid cells ->
  Forall (fun ij => fst ij <> snd ij) (tested_pairs cells).
Proof.
  intros Hc. apply Forall_forall. intros [i j] Hin.
  apply in_tested_pairs in Hin as [Hlt _]; [| exact Hc]. cbn [fst snd]. lia.
Qed.

Lemma frame_energy (st st' : State) (out : list output) :
  well_shaped (grid st) ->
  total_energy st = kinetic_energy (particles st) ->
  frame st = Ok (st', out) ->
  well_shaped (grid st') /\
  total_energy st' = kinetic_energy (particles st') /\
  out = [].
Proof.
  intros Hg He. unfold frame.
  destruct (physics_tested_pairs st Hg) as [Hg' Hp]. rewrite Hp. clear Hp.
  destruct (for_each _ _ _) as [ps' |] eqn:Hc; cbn [bind fst snd]; [| discriminate].
  apply collisions_energy in Hc;
    [| apply tested_pairs_distinct, cells_of_in_grid].
  rewrite move_energy in Hc.
  intros H. injection H as <- <-. cbn [grid particles total_energy].
  split; [exact Hg' |]. split; [congruence |].
  unfold energy_check, fgt. rewrite Hc, <- He.
  destruct (Rgt_dec _ _) as [Hgt | _]; [| reflexivity].
  exfalso. unfold ENERGY_TOLERANCE in Hgt. rewrite Rminus_diag, Rabs_R0 in Hgt. lra.
Qed.

(** With real numbers for floats, a run that does not raise prints no
    warning: walls and collisions keep the energy, so what the monitor
    reports on the machine is rounding. *)
Theorem simulate_silent (ps : list Particle) (n : nat) (st' : State)
      (out : list output) :
  simulate ps n = Ok (st', out) -> out = [].
Proof.
  unfold simulate.
  assert (Hinv : well_shaped (grid (init ps)) /\
                 total_energy (init ps) = kinetic_energy (particles (init ps)))
    by (split; [apply well_shaped_new_grid | reflexivity]).
  revert Hinv. generalize (init ps) as st. revert st' out.
  induction n as [| n IH]; intros st' out st [Hg He]; cbn [frames].
  - intros H. injection H as _ <-. reflexivity.
  - destruct (frame st) as [[st1 o1] |] eqn:Hf; cbn [bind fst snd]; [| discriminate].
    destruct (frames n st1) as [[st2 o2] |] eqn:Hn; cbn [bind fst snd]; [| discriminate].
    intros H. injection H as _ <-.
    destruct (frame_energy _ _ _ Hg He Hf) as [Hg1 [He1 ->]].
    rewrite (IH _ _ _ (conj Hg1 He1) Hn). reflexivity.
Qed.

(** * More on the walls *)

(** [check_walls] leaves a body as it is exactly when the body is inside
    the domain on both axes. *)
Theorem check_walls_fixed_iff (p : Particle) :
  check_walls p = p <-> contained p.
Proof.
  split.
  - intros H. unfold contained. rewrite <- H.
    split; [apply check_walls_x_bounds | apply check_walls_y_bounds].
  - intros [Hx Hy]. apply check_walls_inside; assumption.
Qed.

(** A second call of [check_walls] changes nothing: no velocity is negated
    twice. *)
Theorem check_walls_idempotent (p : Particle) :
  check_walls (check_walls p) = check_walls p.
Proof.
  apply check_walls_inside;
    [apply check_walls_x_bounds | apply check_walls_y_bounds].
Qed.

(** The velocity is negated whenever the body is over a wall, whatever its
    direction.  A body that is over the left wall and already on its way
    back is put on the wall with its velocity turned outwards, towards the
    wall it has just been put on. *)
Theorem check_walls_turns_returning_body_out (p : Particle) :
  x p < PARTICLE_RADIUS -> 0 < vx p ->
  x (check_walls p) = PARTICLE_RADIUS /\
  vx (check_walls p) = - vx p /\
  vx (check_walls p) < 0.
Proof.
  intros Hx Hv.
  assert (H : x (check_walls p) = PARTICLE_RADIUS /\ vx (check_walls p) = - vx p).
  { unfold check_walls. unfold_consts. case_cmp; try lra;
      (split; [| reflexivity]);
      rewrite Rmin_left by lra; rewrite Rmax_left by lra; reflexivity. }
  destruct H as [H1 H2]. split; [exact H1 | split; [exact H2 |]].
  rewrite H2. lra.
Qed.

Lemma check_walls_turns_returning_body_out_witness :
  x (check_walls (mkParticle 2 300 2 0)) = PARTICLE_RADIUS /\
  vx (check_walls (mkParticle 2 300 2 0)) = - vx (mkParticle 2 300 2 0) /\
  vx (check_walls (mkParticle 2 300 2 0)) < 0.
Proof.
  apply (check_walls_turns_returning_body_out (mkParticle 2 300 2 0));
    cbn [x vx]; unfold PARTICLE_RADIUS; lra.
Defined.

(** * More on [collide_with] *)

Lemma dist2_sym (p q : Particle) : dist2 q p = dist2 p q.
Proof. unfold dist2. ring. Qed.

Lemma dist_sym (p q : Particle) : dist q p = dist p q.
Proof. unfold dist. rewrite dist2_sym. reflexivity. Qed.

Lemma normal_x_sym (p q : Particle) : normal_x q p = - normal_x p q.
Proof.
  unfold normal_x. rewrite dist_sym. unfold Rdiv. ring.
Qed.

Lemma normal_y_sym (p q : Particle) : normal_y q p = - normal_y p q.
Proof.
  unfold normal_y. rewrite dist_sym. unfold Rdiv. ring.
Qed.

Lemma dvn_sym (p q : Particle) : dvn q p = dvn p q.
Proof. unfold dvn. rewrite normal_x_sym, normal_y_sym. ring. Qed.

Lemma bounced_self_sym (p q : Particle) : bounced_self q p = bounced_other p q.
Proof.
  unfold bounced_self, bounced_other.
  rewrite dvn_sym, normal_x_sym, normal_y_sym, dist_sym.
  destruct (fgt _ _); cbn zeta; f_equal; ring.
Qed.

Lemma bounced_other_sym (p q : Particle) : bounced_other q p = bounced_self p q.
Proof.
  unfold bounced_self, bounced_other.
  rewrite dvn_sym, normal_x_sym, normal_y_sym, dist_sym.
  destruct (fgt _ _); cbn zeta; f_equal; ring.
Qed.

(** The four ways a call can go. *)
Lemma collide_with_cases (p q : Particle) :
  (4 * PARTICLE_RADIUS * PARTICLE_RADIUS <= dist2 p q /\
   collide_with p q = Ok (p, q)) \/
  (dist2 p q = 0 /\ collide_with p q = Raise ZeroDivisionError) \/
  (0 < dist2 p q < 4 * PARTICLE_RADIUS * PARTICLE_RADIUS /\ 0 < dvn p q /\
   collide_with p q = Ok (p, q)) \/
  (0 < dist2 p q < 4 * PARTICLE_RADIUS * PARTICLE_RADIUS /\ dvn p q <= 0 /\
   collide_with p q = Ok (bounced_self p q, bounced_other p q)).
Proof.
  destruct (Rle_dec (4 * PARTICLE_RADIUS * PARTICLE_RADIUS) (dist2 p q)) as [Hf | Hn].
  { left. split; [exact Hf | apply collide_with_far, Hf]. }
  destruct (Req_dec_T (dist2 p q) 0) as [Hz | Hnz].
  { right; left. split; [exact Hz | apply collide_with_coincident, Hz]. }
  assert (Hr : 0 < dist2 p q < 4 * PARTICLE_RADIUS * PARTICLE_RADIUS)
    by (pose proof (dist2_nonneg p q); lra).
  destruct (Rle_dec (dvn p q) 0) as [Hv | Hv].
  - right; right; right. auto using collide_with_impulse.
  - right; right; left. assert (0 < dvn p q) by lra.
    auto using collide_with_skip.
Qed.

(** The result of a call does not depend on which of the two bodies is
    [self]: the call the other way round leaves the same two bodies, and
    raises when this one does. *)
Theorem collide_with_swap (p q : Particle) :
  collide_with q p = swap_result (collide_with p q).
Proof.
  destruct (collide_with_cases p q)
    as [[Hd ->] | [[Hd ->] | [[Hd [Hv ->]] | [Hd [Hv ->]]]]]; cbn [swap_result fst snd].
  - apply collide_with_far. rewrite dist2_sym. exact Hd.
  - apply collide_with_coincident. rewrite dist2_sym. exact Hd.
  - apply collide_with_skip; [rewrite dist2_sym | rewrite dvn_sym]; assumption.
  - rewrite collide_with_impulse
      by (try rewrite dist2_sym; try rewrite dvn_sym; assumption).
    rewrite (bounced_self_sym p q), (bounced_other_sym p q). reflexivity.
Qed.

Lemma collide_with_exn (p q : Particle) (e : exn) :
  collide_with p q = Raise e -> e = ZeroDivisionError.
Proof.
  intros H.
  destruct (collide_with_cases p q)
    as [[Hd He] | [[Hd He] | [[Hd [Hv He]] | [Hd [Hv He]]]]];
    rewrite He in H; try discriminate.
  injection H as <-. reflexivity.
Qed.

(** In exact real arithmetic a call raises exactly when the two centres are
    at the same point, and then with [ZeroDivisionError].  (On floats the
    squares of small differences can underflow:
    [Binary64.underflow_raises].) *)
Theorem collide_with_raises_iff (p q : Particle) (e : exn) :
  collide_with p q = Raise e
  <-> e = ZeroDivisionError /\ x q = x p /\ y q = y p.
Proof.
  split.
  - intros H.
    destruct (collide_with_cases p q)
      as [[Hd He] | [[Hd He] | [[Hd [Hv He]] | [Hd [Hv He]]]]];
      rewrite He in H; try discriminate.
    injection H as <-. split; [reflexivity |].
    unfold dist2 in Hd.
    pose proof (Rle_0_sqr (x q - x p)) as Hx.
    pose proof (Rle_0_sqr (y q - y p)) as Hy. unfold Rsqr in Hx, Hy.
    assert (Hx0 : (x q - x p) * (x q - x p) = 0) by lra.
    assert (Hy0 : (y q - y p) * (y q - y p) = 0) by lra.
    apply Rsqr_0_uniq in Hx0, Hy0. lra.
  - intros [-> [Hx Hy]]. apply collide_with_coincident.
    unfold dist2. rewrite Hx, Hy. ring.
Qed.


Lemma dist_in_range (p q : Particle) :
  dist2 p q < 4 * PARTICLE_RADIUS * PARTICLE_RADIUS ->
  dist p q < 2 * PARTICLE_RADIUS.
Proof.
  intros H. unfold PARTICLE_RADIUS in *.
  destruct (Rlt_dec (dist p q) (2 * 5)) as [Hlt | Hge]; [exact Hlt | exfalso].
  pose proof (dist_sqr p q) as Hs.
  assert (10 * 10 <= dist p q * dist p q)
    by (apply Rmult_le_compat; lra).
  lra.
Qed.

Lemma bounced_dist2 (p q : Particle) :
  0 < dist2 p q < 4 * PARTICLE_RADIUS * PARTICLE_RADIUS ->
  dist2 (bounced_self p q) (bounced_other p q)
  = 4 * PARTICLE_RADIUS * PARTICLE_RADIUS.
Proof.
  intros [H0 H1]. pose proof (dist_in_range p q H1) as Hlt.
  pose proof (dist_pos p q H0) as Hd. pose proof (normal_unit p q H0) as Hu.
  assert (Hx : x q - x p = dist p q * normal_x p q)
    by (unfold normal_x; field; lra).
  assert (Hy : y q - y p = dist p q * normal_y p q)
    by (unfold normal_y; field; lra).
  unfold bounced_self, bounced_other, fgt.
  destruct (Rgt_dec _ _) as [_ | Hn]; [| lra].
  unfold dist2. cbn [x y].
  set (d := dist p q) in *. set (a := normal_x p q) in *.
  set (b := normal_y p q) in *.
  replace (x q + (2 * PARTICLE_RADIUS - d) / 2 * a
           - (x p - (2 * PARTICLE_RADIUS - d) / 2 * a))
    with ((x q - x p) + (2 * PARTICLE_RADIUS - d) * a) by field.
  replace (y q + (2 * PARTICLE_RADIUS - d) / 2 * b
           - (y p - (2 * PARTICLE_RADIUS - d) / 2 * b))
    with ((y q - y p) + (2 * PARTICLE_RADIUS - d) * b) by field.
  rewrite Hx, Hy.
  replace ((d * a + (2 * PARTICLE_RADIUS - d) * a)
           * (d * a + (2 * PARTICLE_RADIUS - d) * a)
           + (d * b + (2 * PARTICLE_RADIUS - d) * b)
             * (d * b + (2 * PARTICLE_RADIUS - d) * b))
    with (4 * PARTICLE_RADIUS * PARTICLE_RADIUS * (a * a + b * b)) by ring.
  rewrite Hu. ring.
Qed.

(** In exact real arithmetic a call on the two bodies that a call has just
    left changes nothing more: after an impulse the centres are two radii
    apart, which is out of range. *)
Theorem collide_with_idempotent (p q p' q' : Particle) :
  collide_with p q = Ok (p', q') -> collide_with p' q' = Ok (p', q').
Proof.
  intros H.
  destruct (collide_with_cases p q)
    as [[Hd He] | [[Hd He] | [[Hd [Hv He]] | [Hd [Hv He]]]]];
    rewrite He in H; try discriminate; injection H as <- <-;
    try exact He.
  apply collide_with_far. rewrite bounced_dist2 by exact Hd. lra.
Qed.

Lemma collide_with_idempotent_witness :
  collide_with (bounced_self apart_left apart_right)
               (bounced_other apart_left apart_right)
  = Ok (bounced_self apart_left apart_right,
        bounced_other apart_left apart_right).
Proof.
  apply (collide_with_idempotent apart_left apart_right).
  apply collide_with_impulse; [apply apart_in_range | apply apart_dvn].
Defined.

(** In exact real arithmetic every call that returns leaves the middle of
    the two centres where it was: the correction moves the two bodies by the
    same amount in opposite directions. *)
Theorem collide_with_keeps_midpoint (p q p' q' : Particle) :
  collide_with p q = Ok (p', q') ->
  x p' + x q' = x p + x q /\ y p' + y q' = y p + y q.
Proof.
  intros H.
  destruct (collide_with_cases p q)
    as [[Hd He] | [[Hd He] | [[Hd [Hv He]] | [Hd [Hv He]]]]];
    rewrite He in H; try discriminate; injection H as <- <-;
    try (split; reflexivity).
  unfold bounced_self, bounced_other. cbn [x y]. split; ring.
Qed.

Lemma collide_with_keeps_midpoint_witness :
  x (bounced_self apart_left apart_right) + x (bounced_other apart_left apart_right)
  = x apart_left + x apart_right /\
  y (bounced_self apart_left apart_right) + y (bounced_other apart_left apart_right)
  = y apart_left + y apart_right.
Proof.
  apply (collide_with_keeps_midpoint apart_left apart_right).
  apply collide_with_impulse; [apply apart_in_range | apply apart_dvn].
Defined.

(** In exact real arithmetic every call that returns leaves the velocity of
    each body across the line of the centres as it was: the impulse acts
    along that line only. *)
Theorem collide_with_keeps_tangential (p q p' q' : Particle) :
  collide_with p q = Ok (p', q') ->
  tangential_speed p q p' = tangential_speed p q p /\
  tangential_speed p q q' = tangential_speed p q q.
Proof.
  intros H.
  destruct (collide_with_cases p q)
    as [[Hd He] | [[Hd He] | [[Hd [Hv He]] | [Hd [Hv He]]]]];
    rewrite He in H; try discriminate; injection H as <- <-;
    try (split; reflexivity).
  unfold tangential_speed, bounced_self, bounced_other. cbn [vx vy]. split; ring.
Qed.

Lemma collide_with_keeps_tangential_witness :
  tangential_speed apart_left apart_right (bounced_self apart_left apart_right)
  = tangential_speed apart_left apart_right apart_left /\
  tangential_speed apart_left apart_right (bounced_other apart_left apart_right)
  = tangential_speed apart_left apart_right apart_right.
Proof.
  apply (collide_with_keeps_tangential apart_left apart_right).
  apply collide_with_impulse; [apply apart_in_range | apply apart_dvn].
Defined.

(** When the impulse is applied the two bodies exchange their velocities
    along the line of the centres. *)
Theorem impulse_exchanges_normal_speeds (p q : Particle) :
  0 < dist2 p q < 4 * PARTICLE_RADIUS * PARTICLE_RADIUS ->
  dvn p q <= 0 ->
  exists p' q',
    collide_with p q = Ok (p', q') /\
    normal_speed p q p' = normal_speed p q q /\
    normal_speed p q q' = normal_speed p q p.
Proof.
  intros Hr Hv. exists (bounced_self p q), (bounced_other p q).
  split; [apply collide_with_impulse; assumption |].
  pose proof (normal_unit p q (proj1 Hr)) as Hu.
  assert (Hd : dvn p q = (vx p - vx q) * normal_x p q
                         + (vy p - vy q) * normal_y p q) by reflexivity.
  unfold normal_speed, bounced_self, bounced_other. cbn [vx vy].
  set (n := dvn p q) in *. set (a := normal_x p q) in *.
  set (b := normal_y p q) in *.
  split.
  - replace ((vx p - n * a) * a + (vy p - n * b) * b)
      with (vx p * a + vy p * b - n * (a * a + b * b)) by ring.
    rewrite Hu, Hd. ring.
  - replace ((vx q + n * a) * a + (vy q + n * b) * b)
      with (vx q * a + vy q * b + n * (a * a + b * b)) by ring.
    rewrite Hu, Hd. ring.
Qed.

Lemma impulse_exchanges_normal_speeds_witness :
  exists p' q',
    collide_with apart_left apart_right = Ok (p', q') /\
    normal_speed apart_left apart_right p'
    = normal_speed apart_left apart_right apart_right /\
    normal_speed apart_left apart_right q'
    = normal_speed apart_left apart_right apart_left.
Proof.
  apply (impulse_exchanges_normal_speeds apart_left apart_right);
    [apply apart_in_range | apply apart_dvn].
Defined.

(** * More on the grid *)

Lemma square_lt_100 (a : R) : a * a < 100 -> -10 < a < 10.
Proof.
  intros H. split.
  - destruct (Rlt_dec (-10) a) as [Hlt | Hge]; [exact Hlt | exfalso].
    assert (10 * 10 <= (- a) * (- a)) by (apply Rmult_le_compat; lra). lra.
  - destruct (Rlt_dec a 10) as [Hlt | Hge]; [exact Hlt | exfalso].
    assert (10 * 10 <= a * a) by (apply Rmult_le_compat; lra). lra.
Qed.

Lemma Int_part_close (a b : R) :
  -1 < a - b < 1 -> (-1 <= Int_part a - Int_part b <= 1)%Z.
Proof.
  intros [H1 H2].
  destruct (base_Int_part a) as [Ha1 Ha2]. destruct (base_Int_part b) as [Hb1 Hb2].
  split.
  - assert (H : (-2 < Int_part a - Int_part b)%Z)
      by (apply lt_IZR; rewrite minus_IZR; lra).
    lia.
  - assert (H : (Int_part a - Int_part b < 2)%Z)
      by (apply lt_IZR; rewrite minus_IZR; lra).
    lia.
Qed.

Lemma in_range_near (p q : Particle) :
  dist2 p q < 4 * PARTICLE_RADIUS * PARTICLE_RADIUS ->
  near (cell_of p) (cell_of q) = true.
Proof.
  intros H. unfold dist2, PARTICLE_RADIUS in H.
  pose proof (Rle_0_sqr (x q - x p)) as Hx.
  pose proof (Rle_0_sqr (y q - y p)) as Hy. unfold Rsqr in Hx, Hy.
  assert (Hdx : -10 < x q - x p < 10) by (apply square_lt_100; lra).
  assert (Hdy : -10 < y q - y p < 10) by (apply square_lt_100; lra).
  assert (Hgx : (-1 <= Int_part (x p / CELL_SIZE) - Int_part (x q / CELL_SIZE) <= 1)%Z)
    by (apply Int_part_close; unfold CELL_SIZE, PARTICLE_RADIUS; lra).
  assert (Hgy : (-1 <= Int_part (y p / CELL_SIZE) - Int_part (y q / CELL_SIZE) <= 1)%Z)
    by (apply Int_part_close; unfold CELL_SIZE, PARTICLE_RADIUS; lra).
  unfold near, cell_of. cbn [fst snd].
  apply andb_true_iff. rewrite !Z.leb_le. lia.
Qed.

(** The cell size is enough for the broad phase: two bodies that are in
    range of each other (less than two radii between the centres) are in the
    same cell or in cells that touch, corners included. *)
Theorem colliding_bodies_in_near_cells (p q : Particle) :
  dist2 p q < 4 * PARTICLE_RADIUS * PARTICLE_RADIUS ->
  near (cell_of p) (cell_of q) = true.
Proof. intros H. apply in_range_near. exact H. Qed.

Lemma colliding_bodies_in_near_cells_witness :
  near (cell_of (mkParticle 26 300 1 0)) (cell_of (mkParticle 18 300 1 0)) = true.
Proof.
  apply (colliding_bodies_in_near_cells (mkParticle 26 300 1 0) (mkParticle 18 300 1 0)).
  unfold dist2, PARTICLE_RADIUS. cbn [x y]. lra.
Defined.

(** For a body inside the window the clamping of the cell does nothing: the
    cell is in the grid and its square holds the centre of the body. *)
Theorem cell_of_holds_body (p : Particle) :
  0 <= x p < WIDTH -> 0 <= y p < HEIGHT ->
  in_grid (fst (cell_of p)) (snd (cell_of p)) = true /\
  IZR (fst (cell_of p)) * CELL_SIZE <= x p < (IZR (fst (cell_of p)) + 1) * CELL_SIZE /\
  IZR (snd (cell_of p)) * CELL_SIZE <= y p < (IZR (snd (cell_of p)) + 1) * CELL_SIZE.
Proof.
  intros Hx Hy. split; [apply cell_of_in_grid |].
  unfold cell_of. cbn [fst snd]. unfold_consts.
  destruct (base_Int_part (x p / (4 * 5))) as [Hx1 Hx2].
  destruct (base_Int_part (y p / (4 * 5))) as [Hy1 Hy2].
  set (gx := Int_part (x p / (4 * 5))) in *.
  set (gy := Int_part (y p / (4 * 5))) in *.
  assert (Hgx : (0 <= gx < GRID_W)%Z).
  { unfold GRID_W. split.
    - assert (-1 < gx)%Z by (apply lt_IZR; lra). lia.
    - apply lt_IZR. replace (IZR ((800 + 4 * 5 - 1) / (4 * 5))) with 40
        by (cbn; reflexivity). lra. }
  assert (Hgy : (0 <= gy < GRID_H)%Z).
  { unfold GRID_H. split.
    - assert (-1 < gy)%Z by (apply lt_IZR; lra). lia.
    - apply lt_IZR. replace (IZR ((600 + 4 * 5 - 1) / (4 * 5))) with 30
        by (cbn; reflexivity). lra. }
  replace (Z.max 0 (Z.min gx (GRID_W - 1))) with gx by lia.
  replace (Z.max 0 (Z.min gy (GRID_H - 1))) with gy by lia.
  lra.
Qed.

Lemma cell_of_holds_body_witness :
  in_grid (fst (cell_of (mkParticle 101 300 1 0)))
          (snd (cell_of (mkParticle 101 300 1 0))) = true /\
  IZR (fst (cell_of (mkParticle 101 300 1 0))) * CELL_SIZE <= 101
  < (IZR (fst (cell_of (mkParticle 101 300 1 0))) + 1) * CELL_SIZE /\
  IZR (snd (cell_of (mkParticle 101 300 1 0))) * CELL_SIZE <= 300
  < (IZR (snd (cell_of (mkParticle 101 300 1 0))) + 1) * CELL_SIZE.
Proof.
  apply (cell_of_holds_body (mkParticle 101 300 1 0));
    cbn [x y]; unfold WIDTH, HEIGHT; lra.
Defined.

Lemma cell_at_cell_of (ps : list Particle) (k : nat) (c : Z * Z) :
  (k < length (map cell_of ps))%nat /\ cell_at (map cell_of ps) k = c
  <-> exists p, nth_error ps k = Some p /\ cell_of p = c.
Proof.
  unfold cell_at. rewrite length_map. split.
  - intros [Hk Hc]. destruct (nth_error ps k) as [p |] eqn:Hn.
    + exists p. split; [reflexivity |]. rewrite <- Hc.
      symmetry. apply nth_error_nth. rewrite nth_error_map, Hn. reflexivity.
    + apply nth_error_None in Hn. lia.
  - intros [p [Hn Hc]]. split.
    + apply nth_error_Some. rewrite Hn. discriminate.
    + rewrite <- Hc. apply nth_error_nth. rewrite nth_error_map, Hn. reflexivity.
Qed.

(** After step 3 the list of a cell holds the indexes of the bodies whose
    cell it is, each once and in increasing order; so every body is in the
    list of one cell only. *)
Theorem grid_holds_each_body_once (ps : list Particle) (gx gy : Z) :
  in_grid gx gy = true ->
  let cell := grid_get (fill_grid (map cell_of ps) (clear_grid new_grid)) gx gy in
  StronglySorted lt cell /\
  forall k, In k cell <-> exists p, nth_error ps k = Some p /\ cell_of p = (gx, gy).
Proof.
  intros Hin cell. unfold cell.
  rewrite grid_get_fill by (try apply cells_of_in_grid; exact Hin).
  split; [apply members_sorted |].
  intros k. rewrite in_members. apply cell_at_cell_of.
Qed.

Lemma grid_holds_each_body_once_witness :
  let cell := grid_get (fill_grid (map cell_of wall_pair) (clear_grid new_grid)) 0 15 in
  StronglySorted lt cell /\
  forall k, In k cell
            <-> exists p, nth_error wall_pair k = Some p /\ cell_of p = (0, 15)%Z.
Proof.
  apply (grid_holds_each_body_once wall_pair 0 15). reflexivity.
Defined.

(** Which pairs of bodies in range a frame can leave untested: only those
    whose body of lower index is in a cell that the half stencil reaches
    from the cell of the other body. *)
Theorem colliding_pair_tested_or_crossed (ps : list Particle) (i j : nat)
        (p q : Particle) :
  (i < j)%nat -> nth_error ps i = Some p -> nth_error ps j = Some q ->
  dist2 p q < 4 * PARTICLE_RADIUS * PARTICLE_RADIUS ->
  In (i, j) (tested_pairs (map cell_of ps)) \/
  exists d, In d half_stencil /\ cell_of p = shift (cell_of q) d.
Proof.
  intros Hlt Hi Hj Hr.
  assert (Hci : (i < length (map cell_of ps))%nat /\ cell_at (map cell_of ps) i = cell_of p)
    by (apply cell_at_cell_of; eauto).
  assert (Hcj : (j < length (map cell_of ps))%nat /\ cell_at (map cell_of ps) j = cell_of q)
    by (apply cell_at_cell_of; eauto).
  destruct Hci as [_ Hci], Hcj as [Hjl Hcj].
  apply in_range_near, near_cases in Hr.
  destruct Hr as [Hs | [Hf | Hb]].
  - left. apply in_tested_pairs; [apply cells_of_in_grid |].
    split; [lia |]. left. congruence.
  - left. apply in_tested_pairs; [apply cells_of_in_grid |].
    split; [lia |]. right. rewrite Hci, Hcj. exact Hf.
  - right. exact Hb.
Qed.

Lemma colliding_pair_tested_or_crossed_witness :
  In (0%nat, 1%nat) (tested_pairs (map cell_of uncrossed_pair)) \/
  exists d, In d half_stencil /\
            cell_of (mkParticle 17 300 1 0) = shift (cell_of (mkParticle 25 300 1 0)) d.
Proof.
  apply (colliding_pair_tested_or_crossed uncrossed_pair 0 1
           (mkParticle 17 300 1 0) (mkParticle 25 300 1 0));
    [lia | reflexivity | reflexivity |].
  unfold dist2, PARTICLE_RADIUS. cbn [x y]. lra.
Defined.

(** * More on whole runs *)

Lemma set_nth_length {A : Type} (l : list A) :
  forall (i : nat) (a : A), length (set_nth i a l) = length l.
Proof.
  induction l as [| b l IH]; intros [| i] a; cbn; auto.
Qed.

Lemma collide_at_length (i j : nat) (ps ps' : list Particle) :
  collide_at i j ps = Ok ps' -> length ps' = length ps.
Proof.
  unfold collide_at.
  destruct (nth_error ps i) as [p |]; [| discriminate].
  destruct (nth_error ps j) as [q |]; [| discriminate].
  destruct (collide_with p q) as [r |]; cbn [bind]; [| discriminate].
  intros H. injection H as <-. rewrite !set_nth_length. reflexivity.
Qed.

Lemma collide_at_exn (i j : nat) (ps : list Particle) (e : exn) :
  (i < length ps)%nat -> (j < length ps)%nat ->
  collide_at i j ps = Raise e -> e = ZeroDivisionError.
Proof.
  intros Hi Hj. unfold collide_at.
  destruct (nth_error ps i) as [p |] eqn:Hp;
    [| apply nth_error_None in Hp; lia].
  destruct (nth_error ps j) as [q |] eqn:Hq;
    [| apply nth_error_None in Hq; lia].
  destruct (collide_with p q) as [r | e'] eqn:Hc; cbn [bind]; [discriminate |].
  intros H. injection H as <-.
  apply collide_with_exn in Hc. exact Hc.
Qed.

Lemma collisions_length (pairs : list (nat * nat)) :
  forall ps ps',
    for_each pairs (fun ij => collide_at (fst ij) (snd ij)) ps = Ok ps' ->
    length ps' = length ps.
Proof.
  induction pairs as [| ij pairs IH]; intros ps ps'; cbn [for_each].
  - intros H. injection H as <-. reflexivity.
  - destruct (collide_at (fst ij) (snd ij) ps) as [ps1 |] eqn:Hc; cbn [bind];
      [| discriminate].
    intros H. rewrite (IH _ _ H). apply (collide_at_length _ _ _ _ Hc).
Qed.

Lemma collisions_exn (pairs : list (nat * nat)) :
  forall ps e,
    Forall (fun ij => (fst ij < length ps)%nat /\ (snd ij < length ps)%nat) pairs ->
    for_each pairs (fun ij => collide_at (fst ij) (snd ij)) ps = Raise e ->
    e = ZeroDivisionError.
Proof.
  induction pairs as [| ij pairs IH]; intros ps e Hp; cbn [for_each].
  - discriminate.
  - inversion Hp as [| ? ? [Hi Hj] Hp']; subst.
    destruct (collide_at (fst ij) (snd ij) ps) as [ps1 | e1] eqn:Hc; cbn [bind].
    + apply IH. rewrite (collide_at_length _ _ _ _ Hc). exact Hp'.
    + intros H. injection H as <-. apply (collide_at_exn _ _ _ _ Hi Hj Hc).
Qed.

Lemma tested_pairs_in_range (cells : list (Z * Z)) :
  cells_in_grid cells ->
  Forall (fun ij => (fst ij < length cells)%nat /\ (snd ij < length cells)%nat)
         (tested_pairs cells).
Proof.
  intros Hc. apply Forall_forall. intros [i j] Hin.
  apply in_tested_pairs in Hin as [Hlt _]; [| exact Hc]. cbn [fst snd]. lia.
Qed.

Lemma move_length (ps : list Particle) : length (move ps) = length ps.
Proof. unfold move. apply length_map. Qed.

Lemma frame_steps (st st' : State) (out : list output) :
  well_shaped (grid st) ->
  frame st = Ok (st', out) ->
  well_shaped (grid st') /\
  length (particles st') = length (particles st) /\
  kinetic_energy (particles st') = kinetic_energy (particles st) /\
  total_energy st' = total_energy st.
Proof.
  intros Hg. unfold frame.
  destruct (physics_tested_pairs st Hg) as [Hg' Hp]. rewrite Hp. clear Hp.
  destruct (for_each _ _ _) as [ps' |] eqn:Hc; cbn [bind fst snd]; [| discriminate].
  intros H. injection H as <- _. cbn [grid particles total_energy].
  split; [exact Hg' |]. split; [| split; [| reflexivity]].
  - rewrite (collisions_length _ _ _ Hc). apply move_length.
  - apply collisions_energy in Hc;
      [| apply tested_pairs_distinct, cells_of_in_grid].
    rewrite Hc. apply move_energy.
Qed.

Lemma frame_exn (st : State) (e : exn) :
  well_shaped (grid st) -> frame st = Raise e -> e = ZeroDivisionError.
Proof.
  intros Hg. unfold frame.
  destruct (physics_tested_pairs st Hg) as [_ Hp]. rewrite Hp. clear Hp.
  destruct (for_each _ _ _) as [ps' | e'] eqn:Hc; cbn [bind]; [discriminate |].
  intros H. injection H as <-.
  apply collisions_exn in Hc; [exact Hc |].
  pose proof (tested_pairs_in_range (map cell_of (move (particles st)))
                (cells_of_in_grid _)) as Hr.
  rewrite length_map in Hr. exact Hr.
Qed.

Lemma frames_steps (n : nat) :
  forall (st st' : State) (out : list output),
    well_shaped (grid st) ->
    frames n st = Ok (st', out) ->
    length (particles st') = length (particles st) /\
    kinetic_energy (particles st') = kinetic_energy (particles st).
Proof.
  induction n as [| n IH]; intros st st' out Hg; cbn [frames].
  - intros H. injection H as <- _. split; reflexivity.
  - destruct (frame st) as [[st1 o1] |] eqn:Hf; cbn [bind fst snd]; [| discriminate].
    destruct (frames n st1) as [[st2 o2] |] eqn:Hn; cbn [bind fst snd]; [| discriminate].
    intros H. injection H as <- _.
    destruct (frame_steps _ _ _ Hg Hf) as [Hg1 [Hl1 [He1 _]]].
    destruct (IH _ _ _ Hg1 Hn) as [Hl2 He2]. split; congruence.
Qed.

Lemma frames_exn (n : nat) :
  forall (st : State) (e : exn),
    well_shaped (grid st) -> frames n st = Raise e -> e = ZeroDivisionError.
Proof.
  induction n as [| n IH]; intros st e Hg; cbn [frames]; [discriminate |].
  destruct (frame st) as [[st1 o1] | e1] eqn:Hf; cbn [bind fst snd].
  - destruct (frame_steps _ _ _ Hg Hf) as [Hg1 _].
    destruct (frames n st1) as [[st2 o2] | e2] eqn:Hn; cbn [bind]; [discriminate |].
    intros H. injection H as <-. apply (IH _ _ Hg1 Hn).
  - intros H. injection H as <-. apply (frame_exn _ _ Hg Hf).
Qed.

(** The population is fixed: after any number of frames there are as many
    particles as at the start. *)
Theorem simulate_keeps_population (ps : list Particle) (n : nat) (st' : State)
        (out : list output) :
  simulate ps n = Ok (st', out) -> length (particles st') = length ps.
Proof.
  unfold simulate. intros H.
  apply frames_steps in H; [| apply well_shaped_new_grid]. apply H.
Qed.

Lemma simulate_keeps_population_witness :
  length (particles (mkState [mkParticle 2 300 2 0; mkParticle 12 300 2 0]
                             (fill_grid [(0, 15); (0, 15)]%Z (clear_grid new_grid))
                             (kinetic_energy wall_pair)))
  = length wall_pair.
Proof.
  apply (simulate_keeps_population wall_pair 1 _ []).
  unfold simulate. cbn [frames]. rewrite frame_wall_pair. reflexivity.
Defined.

(** With real numbers for floats, walls and collisions together keep the
    total kinetic energy: after any number of frames it is what it was at
    the start. *)
Theorem simulate_keeps_energy (ps : list Particle) (n : nat) (st' : State)
        (out : list output) :
  simulate ps n = Ok (st', out) ->
  kinetic_energy (particles st') = kinetic_energy ps.
Proof.
  unfold simulate. intros H.
  apply frames_steps in H; [| apply well_shaped_new_grid]. apply H.
Qed.

Lemma simulate_keeps_energy_witness :
  kinetic_energy (particles (mkState [mkParticle 2 300 2 0; mkParticle 12 300 2 0]
                                     (fill_grid [(0, 15); (0, 15)]%Z (clear_grid new_grid))
                                     (kinetic_energy wall_pair)))
  = kinetic_energy wall_pair.
Proof.
  apply (simulate_keeps_energy wall_pair 1 _ []).
  unfold simulate. cbn [frames]. rewrite frame_wall_pair. reflexivity.
Defined.

(** The indexes that the loops take from the grid are always indexes of
    particles: no run ends with an [IndexError]. *)
Theorem simulate_never_raises_index_error (ps : list Particle) (n : nat) :
  simulate ps n <> Raise IndexError.
Proof.
  unfold simulate. intros H.
  apply frames_exn in H; [discriminate | apply well_shaped_new_grid].
Qed.

(** * The colour of a particle *)

Lemma hypot_nonneg (a b : R) : 0 <= hypot a b.
Proof. unfold hypot. apply sqrt_pos. Qed.

Lemma Int_part_nonneg (r : R) : 0 <= r -> (0 <= Int_part r)%Z.
Proof.
  intros H. destruct (base_Int_part r) as [_ H2].
  assert (-1 < Int_part r)%Z by (apply lt_IZR; lra). lia.
Qed.

Lemma Int_part_le (a b : R) : a <= b -> (Int_part a <= Int_part b)%Z.
Proof.
  intros H. destruct (base_Int_part a) as [Ha _]. destruct (base_Int_part b) as [_ Hb].
  assert (Int_part a < Int_part b + 1)%Z
    by (apply lt_IZR; rewrite plus_IZR; lra).
  lia.
Qed.

Lemma py_int_speed (p : Particle) :
  py_int (40 * hypot (vx p) (vy p)) = Int_part (40 * hypot (vx p) (vy p)).
Proof.
  unfold py_int. pose proof (hypot_nonneg (vx p) (vy p)).
  destruct (Rle_dec _ _) as [_ | Hn]; [reflexivity | lra].
Qed.

(** Every particle is drawn in a colour that the display accepts: red and
    blue between 0 and 255 with sum 255, and no green. *)
Theorem color_of_valid (p : Particle) :
  let '(r, g, b) := color_of p in
  (0 <= r <= 255)%Z /\ g = 0%Z /\ (0 <= b <= 255)%Z /\ (r + b = 255)%Z.
Proof.
  unfold color_of. cbn zeta. rewrite py_int_speed.
  pose proof (Int_part_nonneg (40 * hypot (vx p) (vy p))) as H.
  pose proof (hypot_nonneg (vx p) (vy p)) as Hh.
  assert (0 <= Int_part (40 * hypot (vx p) (vy p)))%Z by (apply H; lra).
  lia.
Qed.

(** The colour goes from blue to red with the speed: a particle that is not
    slower than another is not less red. *)
Theorem color_of_monotone (p q : Particle) :
  hypot (vx p) (vy p) <= hypot (vx q) (vy q) ->
  (fst (fst (color_of p)) <= fst (fst (color_of q)))%Z.
Proof.
  intros H. unfold color_of. cbn [fst]. rewrite !py_int_speed.
  assert (Int_part (40 * hypot (vx p) (vy p))
          <= Int_part (40 * hypot (vx q) (vy q)))%Z
    by (apply Int_part_le; lra).
  lia.
Qed.

Lemma hypot_axis (v : R) : 0 <= v -> hypot v 0 = v.
Proof.
  intros H. unfold hypot. replace (v * v + 0 * 0) with (v * v) by ring.
  apply sqrt_square, H.
Qed.

Lemma color_of_monotone_witness :
  (fst (fst (color_of (mkParticle 0 0 1 0)))
   <= fst (fst (color_of (mkParticle 0 0 2 0))))%Z.
Proof.
  apply (color_of_monotone (mkParticle 0 0 1 0) (mkParticle 0 0 2 0)).
  cbn [vx vy]. rewrite !hypot_axis by lra. lra.
Defined.

(** From the speed 6.375 on (255 / 40) a particle is drawn fully red. *)
Theorem color_of_saturates (p : Particle) :
  6.375 <= hypot (vx p) (vy p) -> color_of p = (255, 0, 0)%Z.
Proof.
  intros Hs. unfold color_of. cbn zeta. rewrite py_int_speed.
  assert (Int_part 255 <= Int_part (40 * hypot (vx p) (vy p)))%Z
    by (apply Int_part_le; lra).
  assert (H255 : Int_part 255 = 255%Z)
    by (symmetry; apply Int_part_spec; lra).
  rewrite H255 in *.
  replace (Z.min 255 (Int_part (40 * hypot (vx p) (vy p)))) with 255%Z by lia.
  reflexivity.
Qed.

Lemma color_of_saturates_witness :
  color_of (mkParticle 0 0 10 0) = (255, 0, 0)%Z.
Proof.
  apply (color_of_saturates (mkParticle 0 0 10 0)).
  cbn [vx vy]. rewrite hypot_axis by lra. lra.
Defined.

(** * The cells of [crossed_cells] as an instance *)

Lemma crossed_cells_in_grid : cells_in_grid crossed_cells.
Proof. unfold cells_in_grid, crossed_cells. repeat constructor. Qed.

Lemma tested_pairs_spec_witness :
  In (0%nat, 1%nat) (tested_pairs crossed_cells)
  <-> (0 < 1 < length crossed_cells)%nat /\
      (cell_at crossed_cells 1 = cell_at crossed_cells 0 \/
       exists d, In d half_stencil /\
                 cell_at crossed_cells 1 = shift (cell_at crossed_cells 0) d).
Proof.
  apply (tested_pairs_spec crossed_cells 0 1). apply crossed_cells_in_grid.
Defined.

(** Three bodies: two in the cell (0, 15), one in the cell to its right. *)
Lemma three_bodies_in_grid : cells_in_grid [(0, 15); (1, 15); (0, 15)]%Z.
Proof. unfold cells_in_grid. repeat constructor. Qed.

Lemma three_bodies_tested :
  tested_pairs [(0, 15); (1, 15); (0, 15)]%Z = [(0, 2); (0, 1)]%nat.
Proof. vm_compute. reflexivity. Qed.

Lemma tested_pairs_NoDup_witness :
  tested_pairs [(0, 15); (1, 15); (0, 15)]%Z = [(0, 2); (0, 1)]%nat /\
  NoDup (tested_pairs [(0, 15); (1, 15); (0, 15)]%Z).
Proof.
  split; [apply three_bodies_tested |].
  apply (tested_pairs_NoDup [(0, 15); (1, 15); (0, 15)]%Z).
  apply three_bodies_in_grid.
Defined.

Lemma untested_pairs_witness :
  In (0%nat, 1%nat) (brute_force_pairs crossed_cells) /\
  ~ In (0%nat, 1%nat) (tested_pairs crossed_cells)
  <-> (0 < 1 < length crossed_cells)%nat /\
      exists d, In d half_stencil /\
                cell_at crossed_cells 0 = shift (cell_at crossed_cells 1) d.
Proof.
  apply (untested_pairs crossed_cells 0 1). apply crossed_cells_in_grid.
Defined.

(** * The calendar report ([kalendarz.py], first half of the file)

    What the report computes from the events that the calendar service
    returns; the requests to the service and the writing of the sheet are
    left out.  A data frame is a list of rows. *)

Module Kalendarz.
Import String.StringSyntax.
Local Open Scope string_scope.
Local Open Scope list_scope.
Local Open Scope nat_scope.

Local Abbreviation string := String.string.

(** An event of the service, with the keys that [main] reads.  The key
    [start] is always there and holds [dateTime], [date] or both. *)
Record Event : Type := mkEvent {
  summary : option string;
  start_dateTime : option string;
  start_date : option string;
  colorId : option string;
  status : option string
}.

(** [d.get(key, default)] on the value of the key, if any. *)
Definition get {A : Type} (value : option A) (default : A) : A :=
  match value with
  | Some v => v
  | None => default
  end.

(** [x in l] on strings. *)
Definition str_in (x : string) (l : list string) : bool :=
  existsb (String.eqb x) l.

(** The [if]/[elif] chain of [main]. *)
Definition event_status (status color_id : string) : string :=
  if String.eqb status "cancelled" then "Odwołane"
  else if String.eqb color_id "11" then "Odwołane wcześniej"
  else if String.eqb color_id "6" then "Odwołane za późno"
  else if str_in color_id ["1"; "2"; "7"; "9"; "10"] then "Odbyło się normalnie"
  else "Nieznany".

(** A row of the frame [df]: the columns [Tytuł], [Data startu],
    [Color ID], [Status API] and [Oznaczony status]. *)
Record Row : Type := mkRow {
  Tytul : string;
  Data_startu : option string;
  Color_ID : string;
  Status_API : string;
  Oznaczony_status : string
}.

(** The body of the loop over the events. *)
Definition make_row (event : Event) : Row :=
  let start :=
    match start_dateTime event with
    | Some v => Some v
    | None => start_date event
    end in
  let color_id := get (colorId event) "Brak" in
  let status := get (status event) "confirmed" in
  mkRow (get (summary event) "Brak tytułu") start color_id status
        (event_status status color_id).

(** A Python dictionary with string keys, as the list of its items. *)
Fixpoint dict_get (d : list (string * string)) (key default : string) : string :=
  match d with
  | [] => default
  | (k, v) :: d' => if String.eqb key k then v else dict_get d' key default
  end.

Definition frekwencja_map : list (string * string) :=
  [("11", "Odwołane wcześniej"); ("6", "Odwołane za późno")].

Definition obecny_kolory : list string := ["1"; "2"; "7"; "9"; "10"; "Brak"].

(** The function applied to the column [Color ID] in [oblicz_frekwencje]. *)
Definition frekwencja (x : string) : string :=
  dict_get frekwencja_map x (if str_in x obecny_kolory then "Obecny" else "Nieznany").

(** The frame that [oblicz_frekwencje] returns first: every row with its
    column [Frekwencja]. *)
Definition oblicz_frekwencje (df : list Row) : list (Row * string) :=
  map (fun r => (r, frekwencja (Color_ID r))) df.

(** [value_counts] of a column of strings: every value that occurs, with
    the number of its occurrences.  The order of the entries is not that of
    the library (by count); the merge below looks entries up by their key
    and does not depend on it. *)
Definition value_counts (col : list string) : list (string * nat) :=
  map (fun k => (k, count_occ String.string_dec col k)) (nodup String.string_dec col).

(** The count that a left merge on the key gives a row: that of the entry
    with the key of the row, if there is one. *)
Definition lookup (counts : list (string * nat)) (key : string) : option nat :=
  match find (fun kc => String.eqb (fst kc) key) counts with
  | Some kc => Some (snd kc)
  | None => None
  end.

(** [zlicz_wydarzenia]: every row with its column [Liczba powtórzeń]
    ([None] where the merge finds no count).  The key is the title. *)
Definition zlicz_wydarzenia (df : list Row) : list (Row * option nat) :=
  let klucz := map Tytul df in
  let powtorzenia := value_counts klucz in
  map (fun r => (r, lookup powtorzenia (Tytul r))) df.

Ltac eqb_cases x :=
  repeat match goal with
         | |- context [String.eqb x ?k] =>
             let E := fresh "E" in
             destruct (String.eqb_spec x k) as [E | E];
             [subst x | ]
         end.

Lemma frekwencja_event_status (status color_id : string) :
  status <> "cancelled" -> color_id <> "Brak" ->
  frekwencja color_id
  = if String.eqb (event_status status color_id) "Odbyło się normalnie"
    then "Obecny" else event_status status color_id.
Proof.
  intros Hs Hb.
  assert (Hc : String.eqb status "cancelled" = false)
    by (apply String.eqb_neq; exact Hs).
  unfold event_status, frekwencja, frekwencja_map, obecny_kolory, str_in.
  rewrite Hc. cbn [dict_get existsb].
  eqb_cases color_id; try reflexivity. contradiction.
Qed.

Lemma frekwencja_not_cancelled (color_id : string) :
  frekwencja color_id <> "Odwołane".
Proof.
  unfold frekwencja, frekwencja_map, obecny_kolory, str_in.
  cbn [dict_get existsb]. eqb_cases color_id; cbn; discriminate.
Qed.

(** For an event that is not cancelled the attendance of its row agrees with
    the status that [main] gives it when the event has a colour.  An event
    without the key [colorId] gets the colour [Brak], the status [Nieznany],
    and counts as [Obecny]. *)
Theorem frekwencja_agrees_with_status (event : Event) :
  status event <> Some "cancelled" ->
  let r := make_row event in
  (forall c, colorId event = Some c -> c <> "Brak" ->
     frekwencja (Color_ID r)
     = if String.eqb (Oznaczony_status r) "Odbyło się normalnie"
       then "Obecny" else Oznaczony_status r) /\
  (colorId event = None ->
     Color_ID r = "Brak" /\ Oznaczony_status r = "Nieznany" /\
     frekwencja (Color_ID r) = "Obecny").
Proof.
  intros Hs r. unfold r, make_row. cbn [Color_ID Oznaczony_status].
  assert (Hst : get (status event) "confirmed" <> "cancelled").
  { destruct (status event) as [v |]; cbn [get]; [congruence | discriminate]. }
  split.
  - intros c Hc Hb. rewrite Hc. cbn [get].
    apply frekwencja_event_status; assumption.
  - intros Hc. rewrite Hc. cbn [get].
    split; [reflexivity |]. split; [| reflexivity].
    unfold event_status.
    assert (Hf : String.eqb (get (status event) "confirmed") "cancelled" = false)
      by (apply String.eqb_neq; exact Hst).
    rewrite Hf. reflexivity.
Qed.

Lemma frekwencja_agrees_with_status_witness :
  let r := make_row (mkEvent (Some "Lekcja") None (Some "2025-01-06") None None) in
  (forall c, colorId (mkEvent (Some "Lekcja") None (Some "2025-01-06") None None)
             = Some c -> c <> "Brak" ->
     frekwencja (Color_ID r)
     = if String.eqb (Oznaczony_status r) "Odbyło się normalnie"
       then "Obecny" else Oznaczony_status r) /\
  (colorId (mkEvent (Some "Lekcja") None (Some "2025-01-06") None None) = None ->
     Color_ID r = "Brak" /\ Oznaczony_status r = "Nieznany" /\
     frekwencja (Color_ID r) = "Obecny").
Proof.
  apply (frekwencja_agrees_with_status
           (mkEvent (Some "Lekcja") None (Some "2025-01-06") None None)).
  discriminate.
Defined.

(** The attendance looks at the colour only.  A cancelled event has the
    status [Odwołane] whatever its colour, but its row never counts as
    [Odwołane]: it counts by its colour, as [Obecny] when the colour is one
    of the colours of presence or is missing. *)
Theorem cancelled_event_counted_by_colour (event : Event) :
  status event = Some "cancelled" ->
  let r := make_row event in
  Oznaczony_status r = "Odwołane" /\
  frekwencja (Color_ID r) <> "Odwołane" /\
  (str_in (Color_ID r) obecny_kolory = true -> frekwencja (Color_ID r) = "Obecny").
Proof.
  intros Hs r. unfold r, make_row. cbn [Color_ID Oznaczony_status].
  rewrite Hs. cbn [get]. split; [reflexivity |].
  split; [apply frekwencja_not_cancelled |].
  generalize (get (colorId event) "Brak") as color_id. intros color_id.
  unfold frekwencja, frekwencja_map, obecny_kolory, str_in.
  cbn [dict_get existsb].
  eqb_cases color_id; cbn; intros H; try reflexivity; discriminate.
Qed.

Lemma cancelled_event_counted_by_colour_witness :
  let r := make_row (mkEvent (Some "Lekcja") (Some "2025-01-06T10:00:00") None
                             (Some "2") (Some "cancelled")) in
  Oznaczony_status r = "Odwołane" /\
  frekwencja (Color_ID r) <> "Odwołane" /\
  (str_in (Color_ID r) obecny_kolory = true -> frekwencja (Color_ID r) = "Obecny").
Proof.
  apply (cancelled_event_counted_by_colour
           (mkEvent (Some "Lekcja") (Some "2025-01-06T10:00:00") None
                    (Some "2") (Some "cancelled"))).
  reflexivity.
Defined.

Lemma find_keyed {B : Type} (f : string -> B) (k : string) (l : list string) :
  In k l ->
  find (fun kc => String.eqb (fst kc) k) (map (fun k' => (k', f k')) l)
  = Some (k, f k).
Proof.
  induction l as [| a l IH]; intros Hin; [contradiction |].
  cbn [map find fst]. destruct (String.eqb_spec a k) as [-> | Hne].
  - reflexivity.
  - destruct Hin as [-> | Hin]; [contradiction | apply IH, Hin].
Qed.

Lemma lookup_value_counts (col : list string) (k : string) :
  In k col ->
  lookup (value_counts col) k = Some (count_occ String.string_dec col k).
Proof.
  intros Hin. unfold lookup, value_counts.
  rewrite (find_keyed (count_occ String.string_dec col))
    by (apply nodup_In; exact Hin).
  reflexivity.
Qed.

(** [zlicz_wydarzenia] keeps the rows and their order, and gives every row
    a count (the merge never comes back empty): the number of rows of the
    frame with the same title, which is at least one.  The start of the
    event has no part in it: events with one title on different days are
    counted together. *)
Theorem zlicz_wydarzenia_counts (df : list Row) :
  map fst (zlicz_wydarzenia df) = df /\
  Forall (fun rc =>
            snd rc = Some (count_occ String.string_dec (map Tytul df) (Tytul (fst rc))) /\
            1 <= count_occ String.string_dec (map Tytul df) (Tytul (fst rc)))
         (zlicz_wydarzenia df).
Proof.
  unfold zlicz_wydarzenia. cbn zeta. split.
  - rewrite map_map. cbn [fst]. apply map_id.
  - apply Forall_forall. intros [r c] Hin.
    apply in_map_iff in Hin as [r' [[= <- <-] Hr]]. cbn [fst snd].
    assert (Ht : In (Tytul r') (map Tytul df)) by (apply in_map, Hr).
    split; [apply lookup_value_counts, Ht |].
    apply (count_occ_In String.string_dec) in Ht. lia.
Qed.

End Kalendarz.

(** * The same code on binary64 floats

    Python's floats are IEEE binary64 numbers, and [+], [-], [*], [/] and
    [math.sqrt] round to nearest.  This part reads [collide_with] and the
    energy monitor on those numbers, to settle what depends on rounding.
    Two library functions are parameters there: the [pow] of the C library
    behind [**], which need not round correctly, and the built-in [sum],
    whose way of adding floats depends on the version of Python. *)

Module Binary64.
Import PrimFloat FloatOps SpecFloat.
Local Open Scope float_scope.

Record Particle : Type := mkParticle {
  x : float;
  y : float;
  vx : float;
  vy : float
}.

(** [a / b]: Python raises when [b] is [0.0] or [-0.0]. *)
Definition fdiv (a b : float) : result float :=
  if b =? 0 then Raise ZeroDivisionError else Ok (a / b).

Definition update_position (self : Particle) : Particle :=
  mkParticle (x self + vx self * 1) (y self + vy self * 1) (vx self) (vy self).

(** [min(a, b)] and [max(a, b)] of Python: the first argument unless the
    second is smaller (larger). *)
Definition py_min (a b : float) : float := if b <? a then b else a.
Definition py_max (a b : float) : float := if a <? b then b else a.

Definition check_walls (self : Particle) : Particle :=
  let self :=
    if (x self - 5 <? 0) || (800 <? x self + 5)
    then mkParticle (py_max 5 (py_min (x self) (800 - 5)))
                    (y self) (- vx self) (vy self)
    else self in
  if (y self - 5 <? 0) || (600 <? y self + 5)
  then mkParticle (x self) (py_max 5 (py_min (y self) (600 - 5)))
                  (vx self) (- vy self)
  else self.

Definition collide_with (self other : Particle) : result (Particle * Particle) :=
  let dx := x other - x self in
  let dy := y other - y self in
  let dist2 := dx * dx + dy * dy in
  if 4 * 5 * 5 <=? dist2 then Ok (self, other)
  else
    let dist := sqrt dist2 in
    nx <- fdiv dx dist ;;
    ny <- fdiv dy dist ;;
    let dvx := vx self - vx other in
    let dvy := vy self - vy other in
    let dvn := dvx * nx + dvy * ny in
    if 0 <? dvn then Ok (self, other)
    else
      let impulse := dvn in
      let self := mkParticle (x self) (y self)
                    (vx self - impulse * nx) (vy self - impulse * ny) in
      let other := mkParticle (x other) (y other)
                    (vx other + impulse * nx) (vy other + impulse * ny) in
      let overlap := 2 * 5 - dist in
      if 0 <? overlap then
        let sep := overlap / 2 in
        Ok (mkParticle (x self - sep * nx) (y self - sep * ny) (vx self) (vy self),
            mkParticle (x other + sep * nx) (y other + sep * ny) (vx other) (vy other))
      else Ok (self, other).

(** The rational number that a finite float is. *)
Definition value (f : float) : option QArith_base.Q :=
  match Prim2SF f with
  | S754_zero _ => Some (QArith_base.Qmake 0 1)
  | S754_finite s m e =>
      let n := if s then Z.neg m else Z.pos m in
      Some (match e with
            | Z0 => QArith_base.Qmake n 1
            | Zpos k => QArith_base.Qmake (n * 2 ^ Z.pos k) 1
            | Zneg k => QArith_base.Qmake n (2 ^ k)
            end)
  | _ => None
  end.




(** What a frame prints. *)
Inductive output : Type :=
| EnergyWarning (diff : float).

(** The double that Python reads [1e-3] as. *)
Definition ENERGY_TOLERANCE : float := 0x1.0624dd2f1a9fcp-10.

Record State : Type := mkState {
  particles : list Particle;
  total_energy : float
}.

(** Parameters for the instances below: a [pow] that rounds squares
    correctly, and a [sum] that adds from left to right. *)
Definition pow_exact (a b : float) : float := a * a.
Definition sum_left (ts : list float) : float := fold_left add ts 0.

Section Monitor.
(** [pow] of the C library, the built-in [sum] on a list of floats, and
    steps 1 to 4 of a frame (motion, walls, grid, collisions), on which the
    monitor does not depend: what is proved below holds for every choice of
    the three, so for those of the machine and of the source. *)
Variable pow : float -> float -> float.
Variable fsum : list float -> float.
Variable physics : list Particle -> result (list Particle).

(** The value of [v ** 2]: [float_pow] of CPython treats NaN, the infinities,
    zero and one itself, and calls [pow] on the absolute value otherwise. *)
Definition square_value (v : float) : float :=
  if is_nan v then v
  else if is_infinity v then abs v
  else if v =? 0 then 0
  else if abs v =? 1 then 1
  else pow (abs v) 2.

(** [v ** 2]: an infinite result from a finite [v] is an [OverflowError]. *)
Definition float_pow2 (v : float) : result float :=
  let r := square_value v in
  if is_infinity r && negb (is_infinity v) then Raise OverflowError else Ok r.

Definition energy_term (p : Particle) : result float :=
  a <- float_pow2 (vx p) ;;
  b <- float_pow2 (vy p) ;;
  Ok (0.5 * (a + b)).

Fixpoint energy_terms (ps : list Particle) : result (list float) :=
  match ps with
  | [] => Ok []
  | p :: ps' =>
      t <- energy_term p ;;
      ts <- energy_terms ps' ;;
      Ok (t :: ts)
  end.

(** [sum(0.5 * (p.vx ** 2 + p.vy ** 2) for p in particles)] *)
Definition kinetic_energy (ps : list Particle) : result float :=
  ts <- energy_terms ps ;;
  Ok (fsum ts).

(** Step 6 of a frame. *)
Definition energy_monitor (ps : list Particle) (total_energy : float)
  : result (list output) :=
  current_energy <- kinetic_energy ps ;;
  let diff := abs (current_energy - total_energy) in
  Ok (if ENERGY_TOLERANCE <? diff then [EnergyWarning diff] else []).

(** The start of [simulate]: the particles and the energy they have. *)
Definition init (ps : list Particle) : result State :=
  total_energy <- kinetic_energy ps ;;
  Ok (mkState ps total_energy).

Definition frame (st : State) : result (State * list output) :=
  ps' <- physics (particles st) ;;
  out <- energy_monitor ps' (total_energy st) ;;
  Ok (mkState ps' (total_energy st), out).

Fixpoint frames (n : nat) (st : State) : result (State * list output) :=
  match n with
  | O => Ok (st, [])
  | S n' =>
      r <- frame st ;;
      r' <- frames n' (fst r) ;;
      Ok (fst r', (snd r ++ snd r')%list)
  end.

Definition simulate (ps : list Particle) (n : nat) : result (State * list output) :=
  st <- init ps ;;
  frames n st.







End Monitor.


(** A frame that warns: the energy of the body is 2 and the baseline 1. *)
Example monitor_warns :
  energy_monitor pow_exact sum_left [mkParticle 7 300 2 0] 1
  = Ok [EnergyWarning 1].
Proof. vm_compute. reflexivity. Qed.

(** A body so fast that [vx ** 2] overflows: the monitor raises. *)
Example monitor_overflows :
  energy_monitor pow_exact sum_left [mkParticle 7 300 0x1p600 0] 1
  = Raise OverflowError.
Proof. vm_compute. reflexivity. Qed.


(** Two centres that differ can still make the call raise: the squares of
    the differences underflow to zero. *)
Example underflow_raises :
  collide_with (mkParticle 0 0 0 0) (mkParticle 0x1p-600 0 0 0)
  = Raise ZeroDivisionError.
Proof. vm_compute. reflexivity. Qed.
End Binary64.
